(** * NIRSpec MOS spectral registration: a shallow embedding

    The notebook [notebooks/wavelength_registration/NIRSpec MOS spectral
    registration.ipynb] aligns two one-dimensional spectra: it isolates the
    wavelength range the two spectra share, fits a quadratic to their flux
    ratio, and warps the dispersion solution of the second spectrum so that
    the standard deviation of the difference spectrum is minimal.

    Numerical model.  A finite sample is an exact rational ([Q]); rounding and
    overflow of the machine floats are not modelled.  A value that numpy may
    make non-finite (a quotient, an interpolant, a fitted coefficient, the
    result of a reduction) has type [xfloat = option Q], where [None] stands
    for any of [inf], [-inf] and [nan].  Sums, differences and products of
    such values are non-finite exactly when an operand is, which is what the
    lifted operations below compute.  Where a property of the warp depends on
    overflow, [alter_wave] is embedded a second time on binary64 values
    (module [F64]) with the machine's own operations.

    The three library routines the notebook calls as black boxes
    ([scipy.interpolate.interp1d], astropy's [LinearLSQFitter] and
    [scipy.optimize.minimize]) are section variables: every theorem holds for
    any implementation of them. *)

From Stdlib Require Import String Arith QArith Qminmax Bool List Lia Lqa.
From Stdlib Require Import Reals Qreals.
From Stdlib Require PrimFloat SpecFloat FloatOps FloatAxioms.
Import ListNotations.

Set Implicit Arguments.
Open Scope Q_scope.

(** ** Exceptions and fallible computations *)

(** [ValueError] and [IndexError] are the exceptions numpy raises in the
    operations modelled here.  [EmptyOverlapError] and [DomainError] are the
    error kinds the specification names; no statement of the notebook
    constructs them. *)
Inductive exn : Type :=
| ValueError (msg : string)
| IndexError (msg : string)
| EmptyOverlapError
| DomainError (msg : string).

Inductive result (A : Type) : Type :=
| Ok (a : A)
| Raise (e : exn).

Arguments Ok {A} a.
Arguments Raise {A} e.

Definition bind {A B : Type} (r : result A) (k : A -> result B) : result B :=
  match r with
  | Ok a => k a
  | Raise e => Raise e
  end.

Notation "x <- r ;; k" := (bind r (fun x => k))
  (at level 61, r at next level, right associativity).

Definition raises {A : Type} (r : result A) : bool :=
  match r with
  | Ok _ => false
  | Raise _ => true
  end.

(** ** The numpy primitives the notebook uses *)

Module np.

Definition Qlt_bool (a b : Q) : bool := negb (Qle_bool b a).

(** [a.min()]: a left-to-right scan; an empty array has no minimum. *)
Definition amin (a : list Q) : result Q :=
  match a with
  | [] => Raise (ValueError "zero-size array to reduction operation minimum which has no identity")
  | x :: rest => Ok (fold_left (fun m y => if Qlt_bool y m then y else m) rest x)
  end.

(** [a.max()]. *)
Definition amax (a : list Q) : result Q :=
  match a with
  | [] => Raise (ValueError "zero-size array to reduction operation maximum which has no identity")
  | x :: rest => Ok (fold_left (fun m y => if Qlt_bool m y then y else m) rest x)
  end.

(** A binary ufunc on one-dimensional operands: shapes [(n,)] and [(n,)]
    combine index by index, a length-one operand is stretched, and any
    other pair of shapes cannot be broadcast. *)
Fixpoint zip_with {A B C : Type} (f : A -> B -> C) (xs : list A) (ys : list B) : list C :=
  match xs, ys with
  | x :: xs', y :: ys' => f x y :: zip_with f xs' ys'
  | _, _ => []
  end.

Definition broadcast2 {A B C : Type} (f : A -> B -> C) (xs : list A) (ys : list B)
  : result (list C) :=
  if Nat.eqb (length xs) (length ys) then Ok (zip_with f xs ys)
  else match xs, ys with
       | [x], _ => Ok (map (f x) ys)
       | _, [y] => Ok (map (fun x => f x y) xs)
       | _, _ => Raise (ValueError "operands could not be broadcast together")
       end.

(** Comparisons of an array with a scalar. *)
Definition ge_scalar (a : list Q) (s : Q) : list bool := map (fun x => Qle_bool s x) a.
Definition le_scalar (a : list Q) (s : Q) : list bool := map (fun x => Qle_bool x s) a.
Definition ne_scalar (a : list Q) (s : Q) : list bool := map (fun x => negb (Qeq_bool x s)) a.

(** [m1 & m2] on boolean arrays. *)
Definition and_ (m1 m2 : list bool) : result (list bool) := broadcast2 andb m1 m2.

(** [a[mask]]: boolean-mask indexing keeps the entries whose flag is set;
    the mask must be as long as the array. *)
Fixpoint compress {A : Type} (a : list A) (mask : list bool) : list A :=
  match a, mask with
  | x :: a', b :: mask' => if b then x :: compress a' mask' else compress a' mask'
  | _, _ => []
  end.

Definition take_mask {A : Type} (a : list A) (mask : list bool) : result (list A) :=
  if Nat.eqb (length a) (length mask) then Ok (compress a mask)
  else Raise (IndexError "boolean index did not match indexed array along dimension 0").

End np.

(** Python's two-argument [max] and [min]: the first argument is kept unless
    the second is strictly larger (smaller). *)
Definition py_max (a b : Q) : Q := if np.Qlt_bool a b then b else a.
Definition py_min (a b : Q) : Q := if np.Qlt_bool b a then b else a.

(** ** The notebook's data *)

(** The extracted spectra: [wave1], [spec1] and [wave2], [spec2]. *)
Record Spectra : Type := {
  wave1 : list Q;
  spec1 : list Q;
  wave2 : list Q;
  spec2 : list Q
}.

(** What the cell "Isolate regions of overlap" binds. *)
Record Overlap : Type := {
  wave_lo : Q;
  wave_hi : Q;
  in_wave1 : list bool;
  in_wave2 : list bool
}.

(** The flag of one sample, as the overlap cell's expression combines it. *)
Definition in_range (lo hi w f : Q) : bool :=
  Qle_bool lo w && Qle_bool w hi && negb (Qeq_bool f 0).

(** [(wave >= wave_lo) & (wave <= wave_hi) & (spec != 0.0)] *)
Definition in_wave (wave spec : list Q) (lo hi : Q) : result (list bool) :=
  m <- np.and_ (np.ge_scalar wave lo) (np.le_scalar wave hi) ;;
  np.and_ m (np.ne_scalar spec 0).

(** The cell "Isolate regions of overlap":
    [wave_lo, wave_hi = max(wave1.min(), wave2.min()), min(wave1.max(), wave2.max())]
    and the two masks [in_wave1], [in_wave2]. *)
Definition isolate_overlap (s : Spectra) : result Overlap :=
  min1 <- np.amin (wave1 s) ;;
  min2 <- np.amin (wave2 s) ;;
  max1 <- np.amax (wave1 s) ;;
  max2 <- np.amax (wave2 s) ;;
  let lo := py_max min1 min2 in
  let hi := py_min max1 max2 in
  m1 <- in_wave (wave1 s) (spec1 s) lo hi ;;
  m2 <- in_wave (wave2 s) (spec2 s) lo hi ;;
  Ok {| wave_lo := lo; wave_hi := hi; in_wave1 := m1; in_wave2 := m2 |}.

(** ** Possibly non-finite values *)

Definition xfloat : Type := option Q.

Definition isfinite (a : xfloat) : bool :=
  match a with
  | Some _ => true
  | None => false
  end.

Definition xlift2 (f : Q -> Q -> Q) (a b : xfloat) : xfloat :=
  match a, b with
  | Some x, Some y => Some (f x y)
  | _, _ => None
  end.

Definition xadd : xfloat -> xfloat -> xfloat := xlift2 Qplus.
Definition xsub : xfloat -> xfloat -> xfloat := xlift2 Qminus.
Definition xmul : xfloat -> xfloat -> xfloat := xlift2 Qmult.

(** Division by a finite sample; a zero divisor gives [inf] or [nan]. *)
Definition xdiv (a : xfloat) (b : Q) : xfloat :=
  match a with
  | Some x => if Qeq_bool b 0 then None else Some (x / b)
  | None => None
  end.

(** The square root of a rational is kept exact: [Sqrt v] denotes the
    non-negative real whose square is [v]. *)
Inductive surd : Type :=
| Sqrt (radicand : Q).

Definition radicand (s : surd) : Q := match s with Sqrt v => v end.

Definition xsurd : Type := option surd.

(** The real number a surd stands for. *)
Definition surd_value (s : surd) : R := sqrt (Q2R (radicand s)).

(** [np.sqrt]: [nan] on a negative or non-finite argument. *)
Definition xsqrt (a : xfloat) : xsurd :=
  match a with
  | Some v => if np.Qlt_bool v 0 then None else Some (Sqrt v)
  | None => None
  end.

(** Two results denote the same number. *)
Definition xeq (a b : xfloat) : Prop :=
  match a, b with
  | Some x, Some y => x == y
  | None, None => True
  | _, _ => False
  end.

Definition xsurd_eq (a b : xsurd) : Prop :=
  match a, b with
  | Some (Sqrt x), Some (Sqrt y) => x == y
  | None, None => True
  | _, _ => False
  end.

(** ** Reductions: [a.sum()], [a.var(ddof)] and [a.std(ddof)] *)

Definition count (n : nat) : Q := inject_Z (Z.of_nat n).

Definition xsum (a : list xfloat) : xfloat := fold_left xadd a (Some 0).

(** numpy's [_var]: the mean is the sum over the number of items, the
    squared deviations are summed and divided by [max (N - ddof) 0]. *)
Definition var (ddof : nat) (a : list xfloat) : xfloat :=
  let rcount := length a in
  let arrmean := xdiv (xsum a) (count rcount) in
  let x := map (fun v => xsub v arrmean) a in
  let x := map (fun v => xmul v v) x in
  let ret := xsum x in
  xdiv ret (count (rcount - ddof)).

Definition std (ddof : nat) (a : list xfloat) : xsurd := xsqrt (var ddof a).

(** ** Polynomials *)

(** [x ** c] for a non-negative integer [c]. *)
Fixpoint power (x : Q) (c : nat) : Q :=
  match c with
  | O => 1
  | S c' => x * power x c'
  end.

(** [enumerate]; the counter starts at [start]. *)
Fixpoint enumerate {A : Type} (start : nat) (l : list A) : list (nat * A) :=
  match l with
  | [] => []
  | a :: l' => (start, a) :: enumerate (S start) l'
  end.

Definition zeros_like (a : list Q) : list Q := map (fun _ => 0) a.

(** One turn of the loop of [alter_wave]:
    [altered_wave2 += coef * old_wave**c]. *)
Definition alter_wave_step (old_wave : list Q) (altered_wave2 : list Q) (item : nat * Q)
  : list Q :=
  let '(c, coef) := item in
  np.zip_with Qplus altered_wave2 (map (fun w => coef * power w c) old_wave).

(** Give the old wavelength and the coefficients of the fit, return the new
    wavelength. *)
Definition alter_wave (poly_coefs : list Q) (old_wave : list Q) : list Q :=
  fold_left (alter_wave_step old_wave) (enumerate 0 poly_coefs) (zeros_like old_wave).

(** astropy's [Polynomial1D] with parameters [c0, c1, ...], evaluated by
    Horner's rule. *)
Definition Polynomial1D (coeffs : list xfloat) (x : Q) : xfloat :=
  fold_right (fun c acc => xadd c (xmul acc (Some x))) (Some 0) coeffs.

(** ** The optimizer's report *)

Record OptimizeResult : Type := {
  x : list Q;
  success : bool;
  status : Z;
  message : string;
  fun_ : xsurd;
  nit : nat;
  nfev : nat
}.

(** What the cell "Normalize the continuum" binds. *)
Record Normalized : Type := {
  out_wave : list Q;
  interp_spec2 : list xfloat;
  div_spec : list xfloat;
  ok_px : list bool;
  normalization : list xfloat;
  flux_scale_factor : list xfloat;
  scaled_spec1 : list xfloat
}.

(** The wavelength, in microns, redwards of which the ratio is fitted. *)
Definition cutoff : Q := 17 # 10.

(** [(np.isfinite(div_spec)) & (out_wave >= 1.70)] *)
Definition select_ok_px (div_spec : list xfloat) (out_wave : list Q) : result (list bool) :=
  np.and_ (map isfinite div_spec) (np.ge_scalar out_wave cutoff).

(** The initial guess of both fits, [np.array([0., 1., 0.])]. *)
Definition initial_guess : list Q := [0; 1; 0].

(** ** The cells that call library routines *)

Section Notebook.

(** [interp1d(x, y, fill_value='extrapolate')(x_new)]: linear
    interpolation of the samples [(x, y)] at the points [x_new]. *)
Variable interp1d : list Q -> list Q -> list Q -> result (list xfloat).

(** [LinearLSQFitter()(Polynomial1D(degree), x, y)]: the parameters
    [c0, ..., c_degree] of the fitted polynomial. *)
Variable fitter : nat -> list Q -> list xfloat -> result (list xfloat).

(** [minimize(fun, x0, args=(old_wave,), method=...)]. *)
Variable minimize :
  (list Q -> list Q -> result xsurd) -> list Q -> list Q -> string -> result OptimizeResult.

(** The cell "Normalize the continuum". *)
Definition normalize_continuum (s : Spectra) (o : Overlap) : result Normalized :=
  out_wave <- np.take_mask (wave1 s) (in_wave1 o) ;;
  wave2m <- np.take_mask (wave2 s) (in_wave2 o) ;;
  spec2m <- np.take_mask (spec2 s) (in_wave2 o) ;;
  interp_spec2 <- interp1d wave2m spec2m out_wave ;;
  spec1m <- np.take_mask (spec1 s) (in_wave1 o) ;;
  div_spec <- np.broadcast2 xdiv interp_spec2 spec1m ;;
  ok_px <- select_ok_px div_spec out_wave ;;
  fit_x <- np.take_mask out_wave ok_px ;;
  fit_y <- np.take_mask div_spec ok_px ;;
  normalization <- fitter 2 fit_x fit_y ;;
  let flux_scale_factor := map (Polynomial1D normalization) out_wave in
  spec1m' <- np.take_mask (spec1 s) (in_wave1 o) ;;
  scaled_spec1 <- np.broadcast2 xmul (map Some spec1m') flux_scale_factor ;;
  Ok {| out_wave := out_wave; interp_spec2 := interp_spec2; div_spec := div_spec;
        ok_px := ok_px; normalization := normalization;
        flux_scale_factor := flux_scale_factor; scaled_spec1 := scaled_spec1 |}.

(** Interpolate the second spectrum onto the wavelength grid of the first.
    The function reads the globals [spec2], [in_wave2] and [out_wave]. *)
Definition alter_spec (s : Spectra) (o : Overlap) (n : Normalized) (wave : list Q)
  : result (list xfloat) :=
  spec2m <- np.take_mask (spec2 s) (in_wave2 o) ;;
  interp1d wave spec2m (out_wave n).

(** The quantity that is minimized; it reads the global [scaled_spec1]. *)
Definition fit_metric (s : Spectra) (o : Overlap) (n : Normalized)
           (poly_coefs : list Q) (old_wave : list Q) : result xsurd :=
  let altered_wave2 := alter_wave poly_coefs old_wave in
  altered_spec2 <- alter_spec s o n altered_wave2 ;;
  diff_spec <- np.broadcast2 xsub altered_spec2 (scaled_spec1 n) ;;
  Ok (std 0 diff_spec).

(** [pixel_fit = minimize(fit_metric, np.array([0., 1., 0.]),
    args=(wave2[in_wave2],), method='Nelder-Mead')] *)
Definition pixel_fit (s : Spectra) (o : Overlap) (n : Normalized) : result OptimizeResult :=
  wave2m <- np.take_mask (wave2 s) (in_wave2 o) ;;
  minimize (fit_metric s o n) initial_guess wave2m "Nelder-Mead".

(** [bad_wave2 = wave2[in_wave2] * 1.1] *)
Definition bad_wave2 (s : Spectra) (o : Overlap) : result (list Q) :=
  wave2m <- np.take_mask (wave2 s) (in_wave2 o) ;;
  Ok (map (fun w => w * (11 # 10)) wave2m).

(** [pixel_fit2 = minimize(fit_metric, np.array([0., 1.0, 0.]),
    args=(bad_wave2,), method='Nelder-Mead')] *)
Definition pixel_fit2 (s : Spectra) (o : Overlap) (n : Normalized) : result OptimizeResult :=
  bad <- bad_wave2 s o ;;
  minimize (fit_metric s o n) initial_guess bad "Nelder-Mead".

(** What the registration cells bind: the optimizer's report and the
    warped wavelengths and resampled spectrum computed from its [x]. *)
Record Registered : Type := {
  fit : OptimizeResult;
  alt_wave2 : list Q;
  alt_spec2 : list xfloat
}.

(** The first fit and the cell "How did we do?" after it. *)
Definition register (s : Spectra) (o : Overlap) (n : Normalized) : result Registered :=
  r <- pixel_fit s o n ;;
  wave2m <- np.take_mask (wave2 s) (in_wave2 o) ;;
  let alt_wave2 := alter_wave (x r) wave2m in
  alt_spec2 <- alter_spec s o n alt_wave2 ;;
  Ok {| fit := r; alt_wave2 := alt_wave2; alt_spec2 := alt_spec2 |}.

(** The second fit, on the wavelengths scaled by 10%, and the cell after it. *)
Definition register2 (s : Spectra) (o : Overlap) (n : Normalized) : result Registered :=
  r <- pixel_fit2 s o n ;;
  bad <- bad_wave2 s o ;;
  let alt_wave2a := alter_wave (x r) bad in
  alt_spec2a <- alter_spec s o n alt_wave2a ;;
  Ok {| fit := r; alt_wave2 := alt_wave2a; alt_spec2 := alt_spec2a |}.

End Notebook.

(** ** Executable stand-ins for the library routines

    They let the cells run on concrete data.  [linear_interp1d] follows
    scipy's linear [interp1d] on abscissae that are already increasing;
    the other two are the simplest routines of the right type. *)

Module Standin.

(** [np.searchsorted(x, v)] on an increasing [x]: the number of entries
    below [v]. *)
Fixpoint searchsorted (xs : list Q) (v : Q) : nat :=
  match xs with
  | [] => 0%nat
  | a :: rest => if np.Qlt_bool a v then S (searchsorted rest v) else 0%nat
  end.

Definition clip (lo hi n : nat) : nat := Nat.min (Nat.max n lo) hi.

Definition linear_interp1d (xs ys x_new : list Q) : result (list xfloat) :=
  if negb (Nat.eqb (length xs) (length ys)) then
    Raise (ValueError "x and y arrays must be equal in length along interpolation axis.")
  else if Nat.ltb (length xs) 2 then
    Raise (ValueError "x and y arrays must have at least 2 entries")
  else
    Ok (map (fun v =>
               let hi := clip 1 (length xs - 1) (searchsorted xs v) in
               let lo := (hi - 1)%nat in
               let x_lo := nth lo xs 0 in
               let x_hi := nth hi xs 0 in
               let y_lo := nth lo ys 0 in
               let y_hi := nth hi ys 0 in
               let slope := xdiv (Some (y_hi - y_lo)) (x_hi - x_lo) in
               xadd (xmul slope (Some (v - x_lo))) (Some y_lo))
            x_new).

(** A fitter that never raises: the constant polynomial through the mean
    of the ratios, which is [nan] when there is no sample. *)
Definition mean_fitter (degree : nat) (xs : list Q) (ys : list xfloat)
  : result (list xfloat) :=
  Ok (xdiv (xsum ys) (count (length ys)) :: repeat (Some 0) degree).

(** An optimizer that stops at once: it evaluates the objective at the
    initial guess and reports that the iteration limit was reached. *)
Definition stalled_minimize (f : list Q -> list Q -> result xsurd)
           (x0 args : list Q) (method : string) : result OptimizeResult :=
  v <- f x0 args ;;
  Ok {| x := x0; success := false; status := 2;
        message := "Maximum number of iterations has been exceeded.";
        fun_ := v; nit := 0; nfev := 1 |}.

End Standin.

(** ** Vocabulary of the specification *)

(** [m] is the least (greatest) entry of the array [a]. *)
Definition is_min (m : Q) (a : list Q) : Prop := In m a /\ Forall (fun y => m <= y) a.
Definition is_max (m : Q) (a : list Q) : Prop := In m a /\ Forall (fun y => y <= m) a.

(** [mask] selects sample [j] of the spectrum [(wave, spec)] exactly when
    its wavelength lies in [[lo, hi]] and its flux is not zero. *)
Definition selects_overlap (lo hi : Q) (wave spec : list Q) (mask : list bool) : Prop :=
  length mask = length wave /\
  forall (j : nat) (w f : Q),
    nth_error wave j = Some w -> nth_error spec j = Some f ->
    (nth_error mask j = Some true <-> (lo <= w /\ w <= hi) /\ ~ f == 0) /\
    (f == 0 -> nth_error mask j = Some false).

(** The wavelength ranges [[min w1, max w1]] and [[min w2, max w2]] have no
    point in common. *)
Definition ranges_disjoint (w1 w2 : list Q) : Prop :=
  exists min1 max1 min2 max2 : Q,
    is_min min1 w1 /\ is_max max1 w1 /\ is_min min2 w2 /\ is_max max2 w2 /\
    (max1 < min2 \/ max2 < min1).

(** Every sample of [(wave, spec)] whose wavelength lies in [[lo, hi]] has
    zero flux. *)
Definition overlap_flux_zero (lo hi : Q) (wave spec : list Q) : Prop :=
  forall (j : nat) (w f : Q),
    nth_error wave j = Some w -> nth_error spec j = Some f ->
    lo <= w -> w <= hi -> f == 0.

(** The mask selects no sample. *)
Definition all_false (mask : list bool) : Prop := Forall (fun b => b = false) mask.

(** Two spectra that share the range [[2, 4]]; one in-range pixel of the
    first is masked. *)
Definition demo_spectra : Spectra :=
  {| wave1 := [1; 2; 3; 4]; spec1 := [5; 0; 7; 8];
     wave2 := [2; 3; 5]; spec2 := [1; 1; 1] |}.

(** Two spectra with disjoint ranges, and two whose common range [[2, 3]]
    holds masked pixels only. *)
Definition apart_spectra : Spectra :=
  {| wave1 := [1; 2]; spec1 := [3; 4]; wave2 := [5; 6]; spec2 := [7; 8] |}.

Definition masked_spectra : Spectra :=
  {| wave1 := [1; 2; 3]; spec1 := [4; 0; 0]; wave2 := [2; 3; 4]; spec2 := [0; 0; 5] |}.

(** The power sum [c_k * w^k + c_(k+1) * w^(k+1) + ...] of the coefficients
    [coefs], whose first entry multiplies [w^k]; with [k = 0] it is the
    polynomial [c0 + c1*w + c2*w^2 + ... + cn*w^n]. *)
Fixpoint power_sum (coefs : list Q) (k : nat) (w : Q) : Q :=
  match coefs with
  | [] => 0
  | c :: rest => c * power w k + power_sum rest (S k) w
  end.

(** The same polynomial by Horner's rule. *)
Definition horner (coefs : list Q) (w : Q) : Q :=
  fold_right (fun c acc => c + w * acc) 0 coefs.

(** The statistics of a list of finite values, in textbook form. *)
Definition Qsum (l : list Q) : Q := fold_right Qplus 0 l.

Definition mean (l : list Q) : Q := Qsum l / count (length l).

Definition sum_sq_dev (l : list Q) : Q :=
  Qsum (map (fun d => (d - mean l) * (d - mean l)) l).

(** The population standard deviation divides the squared deviations by the
    number [N] of values, each value weighing the same. *)
Definition population_std (l : list Q) : xsurd :=
  match l with
  | [] => None
  | _ => Some (Sqrt (sum_sq_dev l / count (length l)))
  end.

(** The unbiased (sample) standard deviation divides by [N - 1]. *)
Definition unbiased_std (l : list Q) : xsurd :=
  match l with
  | [] | [_] => None
  | _ => Some (Sqrt (sum_sq_dev l / count (length l - 1)))
  end.

(** The values of an array when all of them are finite. *)
Fixpoint finite_values (d : list xfloat) : option (list Q) :=
  match d with
  | [] => Some []
  | Some q :: rest => option_map (cons q) (finite_values rest)
  | None :: _ => None
  end.

(** A statistic of an array that may hold non-finite values, which make it
    [nan]. *)
Definition statistic (f : list Q -> xsurd) (d : list xfloat) : xsurd :=
  match finite_values d with
  | Some l => f l
  | None => None
  end.

(** The objective returned the value [v]. *)
Definition metric_is (r : result xsurd) (v : xsurd) : Prop :=
  match r with
  | Ok m => xsurd_eq m v
  | Raise _ => False
  end.

(** A sample (wavelength, ratio) passes the filter of the normalization fit
    when its ratio is finite and its wavelength is at least the cutoff. *)
Definition passes_filter (wd : Q * xfloat) : bool :=
  isfinite (snd wd) && Qle_bool cutoff (fst wd).

(** The samples the fit is restricted to. *)
Definition fit_set (out_wave : list Q) (div_spec : list xfloat) : list (Q * xfloat) :=
  filter passes_filter (combine out_wave div_spec).

(** ** Running the cells in order *)

(** The namespace after the overlap and normalization cells. *)
Definition prepare (interp1d : list Q -> list Q -> list Q -> result (list xfloat))
           (fitter : nat -> list Q -> list xfloat -> result (list xfloat))
           (s : Spectra) : result (Overlap * Normalized) :=
  o <- isolate_overlap s ;;
  n <- normalize_continuum interp1d fitter s o ;;
  Ok (o, n).

(** Two samples per spectrum on a common grid: fluxes [1, 1] and [1, 3]. *)
Definition pair_spectra : Spectra :=
  {| wave1 := [1; 2]; spec1 := [1; 1]; wave2 := [1; 2]; spec2 := [1; 3] |}.

(** The bindings the two cells leave on [pair_spectra] when the fitted
    scale factor is the constant 3. *)
Definition pair_overlap : Overlap :=
  {| wave_lo := 1; wave_hi := 2; in_wave1 := [true; true]; in_wave2 := [true; true] |}.

Definition pair_normalized : Normalized :=
  {| out_wave := [1; 2]; interp_spec2 := [Some 1; Some 3];
     div_spec := [Some 1; Some 3]; ok_px := [false; true];
     normalization := [Some 3; Some 0; Some 0];
     flux_scale_factor := [Some 3; Some 3];
     scaled_spec1 := [Some 3; Some 3] |}.

(** Three samples around the cutoff, and two samples below it. *)
Definition cutoff_spectra : Spectra :=
  {| wave1 := [16 # 10; 17 # 10; 18 # 10]; spec1 := [1; 1; 1];
     wave2 := [16 # 10; 17 # 10; 18 # 10]; spec2 := [2; 2; 2] |}.

Definition blue_spectra : Spectra :=
  {| wave1 := [1; 3 # 2]; spec1 := [2; 2]; wave2 := [1; 3 # 2]; spec2 := [4; 4] |}.

(** ** Vocabulary of the further properties *)

(** numpy can combine one-dimensional operands of lengths [n] and [m]. *)
Definition broadcastable (n m : nat) : Prop := n = m \/ n = 1%nat \/ m = 1%nat.

(** The same two spectra, named the other way round. *)
Definition swap_spectra (s : Spectra) : Spectra :=
  {| wave1 := wave2 s; spec1 := spec2 s; wave2 := wave1 s; spec2 := spec1 s |}.

(** Two flux arrays are zero at the same pixels. *)
Definition same_zero_pixels (f g : list Q) : Prop :=
  Forall2 (fun a b => a == 0 <-> b == 0) f g.

(** [w] lies between two entries of the array [a]. *)
Definition bracketed_by (a : list Q) (w : Q) : Prop :=
  exists lo hi : Q, In lo a /\ In hi a /\ lo <= w /\ w <= hi.

(** ** The warp in double precision

    [alter_wave] once more, on IEEE binary64 values with the operations of
    the machine: products and sums round to nearest even, overflow to
    infinity, and [0 * inf] is [nan].  numpy evaluates [x ** c] for the
    integer scalars 0, 1 and 2 as [1], [x] and [x * x]; higher powers call
    the C library's [pow], which is a parameter here. *)

Module F64.

Import PrimFloat.

(** [x ** c] *)
Definition power (libm_pow : float -> nat -> float) (x : float) (c : nat) : float :=
  match c with
  | 0%nat => one
  | 1%nat => x
  | 2%nat => mul x x
  | _ => libm_pow x c
  end.

Definition zeros_like (a : list float) : list float := map (fun _ => zero) a.

(** [altered_wave2 += coef * old_wave**c] *)
Definition alter_wave_step (libm_pow : float -> nat -> float)
           (old_wave : list float) (altered_wave2 : list float) (item : nat * float)
  : list float :=
  let '(c, coef) := item in
  np.zip_with add altered_wave2 (map (fun w => mul coef (power libm_pow w c)) old_wave).

Definition alter_wave (libm_pow : float -> nat -> float)
           (poly_coefs : list float) (old_wave : list float) : list float :=
  fold_left (alter_wave_step libm_pow old_wave) (enumerate 0 poly_coefs)
            (zeros_like old_wave).

(** [np.array([0., 1., 0.])] *)
Definition initial_guess : list float := [zero; one; zero].

(** A stand-in for the C library's [pow]: repeated multiplication. *)
Fixpoint repeated_product (x : float) (c : nat) : float :=
  match c with
  | O => one
  | S c' => mul x (repeated_product x c')
  end.

(** Two doubles that numpy's [==] cannot tell apart, or the same [nan]. *)
Definition same_value (a b : float) : Prop := a = b \/ eqb a b = true.

End F64.

(** * Properties *)

(** ** Comparisons and element-wise operations *)

Lemma Qlt_bool_iff (a b : Q) : np.Qlt_bool a b = true <-> a < b.
Proof.
  unfold np.Qlt_bool. rewrite negb_true_iff.
  split; intro H.
  - apply Qnot_le_lt. intro Hle. apply Qle_bool_iff in Hle. congruence.
  - destruct (Qle_bool b a) eqn:E; [|reflexivity].
    apply Qle_bool_iff in E. exfalso. exact (Qlt_not_le _ _ H E).
Qed.

Lemma Qlt_bool_false_iff (a b : Q) : np.Qlt_bool a b = false <-> b <= a.
Proof.
  unfold np.Qlt_bool. rewrite negb_false_iff. apply Qle_bool_iff.
Qed.

Lemma py_max_Qmax (a b : Q) : py_max a b == Qmax a b.
Proof.
  unfold py_max. destruct (np.Qlt_bool a b) eqn:E.
  - apply Qlt_bool_iff in E. symmetry. apply Q.max_r. apply Qlt_le_weak, E.
  - apply Qlt_bool_false_iff in E. symmetry. apply Q.max_l, E.
Qed.

Lemma py_min_Qmin (a b : Q) : py_min a b == Qmin a b.
Proof.
  unfold py_min. destruct (np.Qlt_bool b a) eqn:E.
  - apply Qlt_bool_iff in E. symmetry. apply Q.min_r. apply Qlt_le_weak, E.
  - apply Qlt_bool_false_iff in E. symmetry. apply Q.min_l, E.
Qed.

Lemma zip_with_length {A B C : Type} (f : A -> B -> C) (xs : list A) (ys : list B) :
  length xs = length ys -> length (np.zip_with f xs ys) = length xs.
Proof.
  revert ys. induction xs as [|a xs IH]; intros [|b ys] H; simpl in *; try congruence.
  f_equal. apply IH. congruence.
Qed.

Lemma zip_with_nth_error {A B C : Type} (f : A -> B -> C) (xs : list A) (ys : list B)
      (j : nat) (a : A) (b : B) :
  nth_error xs j = Some a -> nth_error ys j = Some b ->
  nth_error (np.zip_with f xs ys) j = Some (f a b).
Proof.
  revert ys j. induction xs as [|a' xs IH]; intros [|b' ys] [|j] Ha Hb;
    simpl in *; try congruence.
  now apply IH.
Qed.

Lemma zip_with_map {A B C D E : Type} (f : C -> D -> E) (g : A -> C) (h : B -> D)
      (xs : list A) (ys : list B) :
  np.zip_with f (map g xs) (map h ys) = np.zip_with (fun a b => f (g a) (h b)) xs ys.
Proof.
  revert ys. induction xs as [|a xs IH]; intros [|b ys]; simpl; try reflexivity.
  now rewrite IH.
Qed.

Lemma broadcast2_same_length {A B C : Type} (f : A -> B -> C) (xs : list A) (ys : list B) :
  length xs = length ys -> np.broadcast2 f xs ys = Ok (np.zip_with f xs ys).
Proof.
  intro H. unfold np.broadcast2. now rewrite H, Nat.eqb_refl.
Qed.

Lemma in_range_iff (lo hi w f : Q) :
  in_range lo hi w f = true <-> (lo <= w /\ w <= hi) /\ ~ f == 0.
Proof.
  unfold in_range. rewrite !andb_true_iff, negb_true_iff, !Qle_bool_iff.
  split; intros [H1 H2]; split; try assumption.
  - intro H. apply Qeq_bool_iff in H. congruence.
  - destruct (Qeq_bool f 0) eqn:E; [|reflexivity].
    apply Qeq_bool_iff in E. contradiction.
Qed.

Lemma zip_with_and3 {A B : Type} (g1 g2 : A -> bool) (g3 : B -> bool)
      (xs : list A) (ys : list B) :
  np.zip_with andb (np.zip_with andb (map g1 xs) (map g2 xs)) (map g3 ys)
  = np.zip_with (fun a b => g1 a && g2 a && g3 b) xs ys.
Proof.
  revert ys. induction xs as [|a xs IH]; intros [|b ys]; simpl; try reflexivity.
  now rewrite IH.
Qed.

Lemma in_wave_same_length (wave spec : list Q) (lo hi : Q) :
  length wave = length spec ->
  in_wave wave spec lo hi = Ok (np.zip_with (in_range lo hi) wave spec).
Proof.
  intro H. unfold in_wave, np.and_, np.ge_scalar, np.le_scalar, np.ne_scalar.
  rewrite broadcast2_same_length by now rewrite !length_map.
  simpl. rewrite broadcast2_same_length.
  - f_equal. apply zip_with_and3.
  - rewrite zip_with_length by now rewrite !length_map.
    now rewrite !length_map.
Qed.

(** ** Reductions [min] and [max] *)

Lemma fold_min_spec (rest : list Q) (x0 : Q) :
  let m := fold_left (fun m y => if np.Qlt_bool y m then y else m) rest x0 in
  In m (x0 :: rest) /\ m <= x0 /\ Forall (fun y => m <= y) rest.
Proof.
  revert x0. induction rest as [|y rest IH]; intro x0; simpl.
  - repeat split; [now left | apply Qle_refl | constructor].
  - destruct (np.Qlt_bool y x0) eqn:E.
    + apply Qlt_bool_iff in E.
      destruct (IH y) as (Hin & Hle & Hall). repeat split.
      * now right.
      * apply Qle_trans with y; [exact Hle | now apply Qlt_le_weak].
      * now constructor.
    + apply Qlt_bool_false_iff in E.
      destruct (IH x0) as (Hin & Hle & Hall). repeat split.
      * destruct Hin as [Hin|Hin]; [now left | now right; right].
      * exact Hle.
      * constructor; [|exact Hall]. now apply Qle_trans with x0.
Qed.

Lemma fold_max_spec (rest : list Q) (x0 : Q) :
  let m := fold_left (fun m y => if np.Qlt_bool m y then y else m) rest x0 in
  In m (x0 :: rest) /\ x0 <= m /\ Forall (fun y => y <= m) rest.
Proof.
  revert x0. induction rest as [|y rest IH]; intro x0; simpl.
  - repeat split; [now left | apply Qle_refl | constructor].
  - destruct (np.Qlt_bool x0 y) eqn:E.
    + apply Qlt_bool_iff in E.
      destruct (IH y) as (Hin & Hle & Hall). repeat split.
      * now right.
      * apply Qle_trans with y; [now apply Qlt_le_weak | exact Hle].
      * now constructor.
    + apply Qlt_bool_false_iff in E.
      destruct (IH x0) as (Hin & Hle & Hall). repeat split.
      * destruct Hin as [Hin|Hin]; [now left | now right; right].
      * exact Hle.
      * constructor; [|exact Hall]. now apply Qle_trans with x0.
Qed.

Lemma amin_spec (a : list Q) :
  a <> [] -> exists m, np.amin a = Ok m /\ is_min m a.
Proof.
  destruct a as [|x0 rest]; [congruence|]. intros _.
  eexists. split; [reflexivity|].
  destruct (fold_min_spec rest x0) as (Hin & Hle & Hall).
  split; [exact Hin | now constructor].
Qed.

Lemma amax_spec (a : list Q) :
  a <> [] -> exists m, np.amax a = Ok m /\ is_max m a.
Proof.
  destruct a as [|x0 rest]; [congruence|]. intros _.
  eexists. split; [reflexivity|].
  destruct (fold_max_spec rest x0) as (Hin & Hle & Hall).
  split; [exact Hin | now constructor].
Qed.

(** ** Overlap selection *)

Lemma zip_in_range_selects (lo hi : Q) (wave spec : list Q) :
  length wave = length spec ->
  selects_overlap lo hi wave spec (np.zip_with (in_range lo hi) wave spec).
Proof.
  intro Hlen. split; [now apply zip_with_length|].
  intros j w f Hw Hf.
  rewrite (zip_with_nth_error (in_range lo hi) _ _ _ Hw Hf). split.
  - rewrite <- in_range_iff. split; congruence.
  - intro H0. f_equal. destruct (in_range lo hi w f) eqn:E; [|reflexivity].
    apply in_range_iff in E. tauto.
Qed.

Lemma isolate_overlap_ok (s : Spectra) (min1 min2 max1 max2 : Q) :
  np.amin (wave1 s) = Ok min1 -> np.amin (wave2 s) = Ok min2 ->
  np.amax (wave1 s) = Ok max1 -> np.amax (wave2 s) = Ok max2 ->
  length (wave1 s) = length (spec1 s) -> length (wave2 s) = length (spec2 s) ->
  isolate_overlap s =
  Ok {| wave_lo := py_max min1 min2; wave_hi := py_min max1 max2;
        in_wave1 := np.zip_with (in_range (py_max min1 min2) (py_min max1 max2))
                                (wave1 s) (spec1 s);
        in_wave2 := np.zip_with (in_range (py_max min1 min2) (py_min max1 max2))
                                (wave2 s) (spec2 s) |}.
Proof.
  intros E1 E2 E3 E4 L1 L2. unfold isolate_overlap.
  rewrite E1, E2, E3, E4. simpl.
  rewrite (in_wave_same_length _ _ _ _ L1), (in_wave_same_length _ _ _ _ L2).
  reflexivity.
Qed.

(** C1: on non-empty spectra whose wavelength and flux arrays have equal
    lengths, overlap selection returns the bounds
    [lo = max (min w1) (min w2)] and [hi = min (max w1) (max w2)] and, for
    each spectrum, a mask that selects sample [j] if and only if
    [lo <= w[j] <= hi] and [f[j] != 0.0]; a sample whose flux is zero is
    never selected. *)
Theorem C1_overlap_selection (s : Spectra) :
  length (wave1 s) = length (spec1 s) ->
  length (wave2 s) = length (spec2 s) ->
  wave1 s <> [] -> wave2 s <> [] ->
  exists (o : Overlap) (min1 min2 max1 max2 : Q),
    isolate_overlap s = Ok o /\
    is_min min1 (wave1 s) /\ is_min min2 (wave2 s) /\
    is_max max1 (wave1 s) /\ is_max max2 (wave2 s) /\
    wave_lo o == Qmax min1 min2 /\
    wave_hi o == Qmin max1 max2 /\
    selects_overlap (wave_lo o) (wave_hi o) (wave1 s) (spec1 s) (in_wave1 o) /\
    selects_overlap (wave_lo o) (wave_hi o) (wave2 s) (spec2 s) (in_wave2 o).
Proof.
  intros L1 L2 N1 N2.
  destruct (amin_spec N1) as (min1 & E1 & M1).
  destruct (amin_spec N2) as (min2 & E2 & M2).
  destruct (amax_spec N1) as (max1 & E3 & M3).
  destruct (amax_spec N2) as (max2 & E4 & M4).
  eexists. exists min1, min2, max1, max2.
  split; [exact (isolate_overlap_ok s E1 E2 E3 E4 L1 L2)|]. simpl.
  split; [exact M1|]. split; [exact M2|]. split; [exact M3|]. split; [exact M4|].
  split; [apply py_max_Qmax|]. split; [apply py_min_Qmin|].
  split; now apply zip_in_range_selects.
Qed.

Lemma C1_overlap_selection_witness :
  exists (o : Overlap) (min1 min2 max1 max2 : Q),
    isolate_overlap demo_spectra = Ok o /\
    is_min min1 (wave1 demo_spectra) /\ is_min min2 (wave2 demo_spectra) /\
    is_max max1 (wave1 demo_spectra) /\ is_max max2 (wave2 demo_spectra) /\
    wave_lo o == Qmax min1 min2 /\
    wave_hi o == Qmin max1 max2 /\
    selects_overlap (wave_lo o) (wave_hi o) (wave1 demo_spectra) (spec1 demo_spectra)
                    (in_wave1 o) /\
    selects_overlap (wave_lo o) (wave_hi o) (wave2 demo_spectra) (spec2 demo_spectra)
                    (in_wave2 o).
Proof.
  apply (C1_overlap_selection demo_spectra);
    [reflexivity | reflexivity | discriminate | discriminate].
Defined.

Example isolate_overlap_demo :
  isolate_overlap demo_spectra
  = Ok {| wave_lo := 2; wave_hi := 4;
          in_wave1 := [false; false; true; true];
          in_wave2 := [true; true; false] |}.
Proof. reflexivity. Qed.

(** *** Spectra that share no sample *)

Lemma in_range_empty (lo hi w f : Q) : hi < lo -> in_range lo hi w f = false.
Proof.
  intro H. destruct (in_range lo hi w f) eqn:E; [|reflexivity].
  apply in_range_iff in E. destruct E as [[H1 H2] _].
  exfalso. apply (Qlt_not_le _ _ H). now apply Qle_trans with w.
Qed.

Lemma zip_with_all_false {A B : Type} (f : A -> B -> bool) (xs : list A) (ys : list B) :
  length xs = length ys ->
  (forall j a b, nth_error xs j = Some a -> nth_error ys j = Some b -> f a b = false) ->
  np.zip_with f xs ys = repeat false (length xs).
Proof.
  revert ys. induction xs as [|a xs IH]; intros [|b ys] Hlen H; simpl in *; try congruence.
  rewrite (H 0%nat a b eq_refl eq_refl). f_equal.
  apply IH; [congruence|].
  intros j a' b' Ha Hb. exact (H (S j) a' b' Ha Hb).
Qed.

Lemma repeat_all_false (n : nat) : all_false (repeat false n).
Proof. induction n; simpl; constructor; [reflexivity | assumption]. Qed.

Lemma is_min_unique (m m' : Q) (a : list Q) : is_min m a -> is_min m' a -> m == m'.
Proof.
  intros [Hin Hall] [Hin' Hall']. rewrite Forall_forall in Hall, Hall'.
  apply Qle_antisym; auto.
Qed.

Lemma is_max_unique (m m' : Q) (a : list Q) : is_max m a -> is_max m' a -> m == m'.
Proof.
  intros [Hin Hall] [Hin' Hall']. rewrite Forall_forall in Hall, Hall'.
  apply Qle_antisym; auto.
Qed.

(** When the ranges are disjoint the upper bound lies below the lower one. *)
Lemma disjoint_bounds_cross (w1 w2 : list Q) (min1 min2 max1 max2 : Q) :
  is_min min1 w1 -> is_min min2 w2 -> is_max max1 w1 -> is_max max2 w2 ->
  ranges_disjoint w1 w2 ->
  py_min max1 max2 < py_max min1 min2.
Proof.
  intros M1 M2 M3 M4 (a1 & b1 & a2 & b2 & A1 & B1 & A2 & B2 & H).
  rewrite py_min_Qmin, py_max_Qmax.
  pose proof (is_min_unique M1 A1) as E1. pose proof (is_min_unique M2 A2) as E2.
  pose proof (is_max_unique M3 B1) as E3. pose proof (is_max_unique M4 B2) as E4.
  destruct H as [H|H].
  - apply Qle_lt_trans with max1; [apply Q.le_min_l|].
    apply Qlt_le_trans with min2; [|apply Q.le_max_r].
    rewrite E3, E2. exact H.
  - apply Qle_lt_trans with max2; [apply Q.le_min_r|].
    apply Qlt_le_trans with min1; [|apply Q.le_max_l].
    rewrite E4, E1. exact H.
Qed.

(** C5: when the wavelength ranges of the two spectra do not overlap, overlap
    selection signals no error: it returns normally, and the mask of each
    spectrum is all false. *)
Theorem C5_disjoint_ranges_give_empty_masks (s : Spectra) :
  length (wave1 s) = length (spec1 s) ->
  length (wave2 s) = length (spec2 s) ->
  ranges_disjoint (wave1 s) (wave2 s) ->
  exists o : Overlap,
    isolate_overlap s = Ok o /\
    in_wave1 o = repeat false (length (wave1 s)) /\
    in_wave2 o = repeat false (length (wave2 s)).
Proof.
  intros L1 L2 D.
  assert (N1 : wave1 s <> []).
  { destruct D as (a & _ & _ & _ & [Hin _] & _). intro E. rewrite E in Hin. exact Hin. }
  assert (N2 : wave2 s <> []).
  { destruct D as (_ & _ & a & _ & _ & _ & [Hin _] & _). intro E. rewrite E in Hin. exact Hin. }
  destruct (amin_spec N1) as (min1 & E1 & M1).
  destruct (amin_spec N2) as (min2 & E2 & M2).
  destruct (amax_spec N1) as (max1 & E3 & M3).
  destruct (amax_spec N2) as (max2 & E4 & M4).
  pose proof (disjoint_bounds_cross M1 M2 M3 M4 D) as Hx.
  eexists. split; [exact (isolate_overlap_ok s E1 E2 E3 E4 L1 L2)|]. simpl.
  split; apply zip_with_all_false; try assumption;
    intros; now apply in_range_empty.
Qed.

Ltac q_order := unfold Qle, Qlt; simpl; lia.

Ltac is_extremum :=
  split; [simpl; tauto | repeat constructor; q_order].

Lemma apart_spectra_disjoint : ranges_disjoint (wave1 apart_spectra) (wave2 apart_spectra).
Proof.
  exists 1, 2, 5, 6.
  split; [is_extremum|]. split; [is_extremum|].
  split; [is_extremum|]. split; [is_extremum|].
  left. q_order.
Qed.

Lemma C5_disjoint_ranges_witness :
  exists o : Overlap,
    isolate_overlap apart_spectra = Ok o /\
    in_wave1 o = repeat false (length (wave1 apart_spectra)) /\
    in_wave2 o = repeat false (length (wave2 apart_spectra)).
Proof.
  apply (C5_disjoint_ranges_give_empty_masks apart_spectra);
    [reflexivity | reflexivity | exact apart_spectra_disjoint].
Defined.

Example isolate_overlap_apart :
  isolate_overlap apart_spectra
  = Ok {| wave_lo := 5; wave_hi := 2;
          in_wave1 := [false; false]; in_wave2 := [false; false] |}.
Proof. reflexivity. Qed.

(** *** No error kind for an empty overlap *)

Lemma bind_raise_inv {A B : Type} (r : result A) (k : A -> result B) (e : exn) :
  bind r k = Raise e -> r = Raise e \/ exists a, r = Ok a /\ k a = Raise e.
Proof.
  destruct r as [a|e']; simpl; intro H.
  - right. now exists a.
  - left. now inversion H.
Qed.

Lemma broadcast2_raises_ValueError {A B C : Type} (f : A -> B -> C)
      (xs : list A) (ys : list B) (e : exn) :
  np.broadcast2 f xs ys = Raise e -> exists msg, e = ValueError msg.
Proof.
  unfold np.broadcast2. destruct (Nat.eqb _ _); [discriminate|].
  destruct xs as [|a [|a' xs]]; destruct ys as [|b [|b' ys]];
    intro H; try discriminate; inversion H; eauto.
Qed.

Lemma in_wave_raises_ValueError (wave spec : list Q) (lo hi : Q) (e : exn) :
  in_wave wave spec lo hi = Raise e -> exists msg, e = ValueError msg.
Proof.
  unfold in_wave, np.and_. intro H.
  apply bind_raise_inv in H. destruct H as [H | (m & _ & H)];
    now apply broadcast2_raises_ValueError in H.
Qed.

Lemma amin_raises_ValueError (a : list Q) (e : exn) :
  np.amin a = Raise e -> exists msg, e = ValueError msg.
Proof. destruct a; simpl; intro H; [inversion H; eauto | discriminate]. Qed.

Lemma amax_raises_ValueError (a : list Q) (e : exn) :
  np.amax a = Raise e -> exists msg, e = ValueError msg.
Proof. destruct a; simpl; intro H; [inversion H; eauto | discriminate]. Qed.

(** Whatever the input, the only exception of the overlap cell is numpy's
    [ValueError] (an empty array, or shapes that cannot be broadcast). *)
Lemma isolate_overlap_raises_ValueError (s : Spectra) (e : exn) :
  isolate_overlap s = Raise e -> exists msg, e = ValueError msg.
Proof.
  unfold isolate_overlap. intro H.
  apply bind_raise_inv in H. destruct H as [H | (min1 & _ & H)];
    [now apply amin_raises_ValueError in H|].
  apply bind_raise_inv in H. destruct H as [H | (min2 & _ & H)];
    [now apply amin_raises_ValueError in H|].
  apply bind_raise_inv in H. destruct H as [H | (max1 & _ & H)];
    [now apply amax_raises_ValueError in H|].
  apply bind_raise_inv in H. destruct H as [H | (max2 & _ & H)];
    [now apply amax_raises_ValueError in H|].
  apply bind_raise_inv in H. destruct H as [H | (m1 & _ & H)];
    [now apply in_wave_raises_ValueError in H|].
  apply bind_raise_inv in H. destruct H as [H | (m2 & _ & H)];
    [now apply in_wave_raises_ValueError in H|].
  discriminate.
Qed.

Lemma zip_in_range_flux_zero (lo hi : Q) (wave spec : list Q) :
  length wave = length spec ->
  overlap_flux_zero lo hi wave spec ->
  np.zip_with (in_range lo hi) wave spec = repeat false (length wave).
Proof.
  intros Hlen Hz. apply zip_with_all_false; [exact Hlen|].
  intros j w f Hw Hf. destruct (in_range lo hi w f) eqn:E; [|reflexivity].
  apply in_range_iff in E. destruct E as [[H1 H2] H3].
  exfalso. apply H3. exact (Hz j w f Hw Hf H1 H2).
Qed.

(** C4 (as the code behaves): overlap selection never raises
    [EmptyOverlapError].  On non-empty spectra with matching array lengths it
    returns normally, and when the wavelength ranges do not overlap, or when
    every sample inside the common range has zero flux, the masks it returns
    select no sample. *)
Theorem C4_empty_overlap_is_not_an_error (s : Spectra) :
  isolate_overlap s <> Raise EmptyOverlapError /\
  (length (wave1 s) = length (spec1 s) ->
   length (wave2 s) = length (spec2 s) ->
   wave1 s <> [] -> wave2 s <> [] ->
   exists o : Overlap,
     isolate_overlap s = Ok o /\
     (ranges_disjoint (wave1 s) (wave2 s) \/
      (overlap_flux_zero (wave_lo o) (wave_hi o) (wave1 s) (spec1 s) /\
       overlap_flux_zero (wave_lo o) (wave_hi o) (wave2 s) (spec2 s)) ->
      all_false (in_wave1 o) /\ all_false (in_wave2 o))).
Proof.
  split.
  - intro H. apply isolate_overlap_raises_ValueError in H.
    destruct H as [msg H]. discriminate.
  - intros L1 L2 N1 N2.
    destruct (amin_spec N1) as (min1 & E1 & M1).
    destruct (amin_spec N2) as (min2 & E2 & M2).
    destruct (amax_spec N1) as (max1 & E3 & M3).
    destruct (amax_spec N2) as (max2 & E4 & M4).
    eexists. split; [exact (isolate_overlap_ok s E1 E2 E3 E4 L1 L2)|]. simpl.
    intros [D | [Z1 Z2]].
    + pose proof (disjoint_bounds_cross M1 M2 M3 M4 D) as Hx.
      split; (rewrite zip_with_all_false;
              [apply repeat_all_false | assumption | intros; now apply in_range_empty]).
    + rewrite (zip_in_range_flux_zero L1 Z1), (zip_in_range_flux_zero L2 Z2).
      split; apply repeat_all_false.
Qed.

Lemma C4_empty_overlap_witness :
  isolate_overlap apart_spectra <> Raise EmptyOverlapError /\
  exists o : Overlap,
    isolate_overlap apart_spectra = Ok o /\
    (ranges_disjoint (wave1 apart_spectra) (wave2 apart_spectra) \/
     (overlap_flux_zero (wave_lo o) (wave_hi o) (wave1 apart_spectra) (spec1 apart_spectra) /\
      overlap_flux_zero (wave_lo o) (wave_hi o) (wave2 apart_spectra) (spec2 apart_spectra)) ->
     all_false (in_wave1 o) /\ all_false (in_wave2 o)).
Proof.
  destruct (C4_empty_overlap_is_not_an_error apart_spectra) as [H1 H2].
  split; [exact H1|].
  apply H2; [reflexivity | reflexivity | discriminate | discriminate].
Defined.

(** The claim as stated fails: on disjoint ranges, and on spectra whose
    common range holds only zero-flux samples, the cell returns its bounds
    and all-false masks instead of raising. *)
Lemma C4_counterexample :
  isolate_overlap apart_spectra
  = Ok {| wave_lo := 5; wave_hi := 2;
          in_wave1 := [false; false]; in_wave2 := [false; false] |} /\
  isolate_overlap masked_spectra
  = Ok {| wave_lo := 2; wave_hi := 3;
          in_wave1 := [false; false; false]; in_wave2 := [false; false; false] |} /\
  raises (isolate_overlap apart_spectra) = false /\
  raises (isolate_overlap masked_spectra) = false.
Proof. repeat split. Qed.

(** ** The dispersion warp [alter_wave] *)

Lemma Forall2_weaken {A B : Type} (P R : A -> B -> Prop) (xs : list A) (ys : list B) :
  (forall a b, P a b -> R a b) -> Forall2 P xs ys -> Forall2 R xs ys.
Proof. intros H F. induction F; constructor; auto. Qed.

Lemma zeros_like_repeat (a : list Q) : zeros_like a = repeat 0 (length a).
Proof. induction a as [|v a IH]; simpl; [reflexivity | now rewrite <- IH]. Qed.

(** One turn of the loop adds the term [coef * w^c] to every entry. *)
Lemma alter_wave_step_pointwise (g : Q -> Q) (old_wave acc : list Q) (c : nat) (coef : Q) :
  Forall2 (fun a w => a == g w) acc old_wave ->
  Forall2 (fun a w => a == g w + coef * power w c)
          (alter_wave_step old_wave acc (c, coef)) old_wave.
Proof.
  intro F. induction F as [|a w acc old_wave Ha F IH]; simpl.
  - constructor.
  - constructor; [now rewrite Ha | exact IH].
Qed.

(** The loop from counter [k] on adds the power sum that starts at [w^k]. *)
Lemma alter_wave_loop_pointwise (coefs : list Q) :
  forall (k : nat) (g : Q -> Q) (old_wave acc : list Q),
    Forall2 (fun a w => a == g w) acc old_wave ->
    Forall2 (fun r w => r == g w + power_sum coefs k w)
            (fold_left (alter_wave_step old_wave) (enumerate k coefs) acc) old_wave.
Proof.
  induction coefs as [|coef coefs IH]; intros k g old_wave acc F; simpl.
  - apply Forall2_weaken with (2 := F). intros a b H. rewrite H. ring.
  - apply (@alter_wave_step_pointwise g old_wave acc k coef) in F.
    apply (IH (S k) (fun w => g w + coef * power w k)) in F.
    apply Forall2_weaken with (2 := F).
    intros a b H. rewrite H. ring.
Qed.

Lemma zeros_like_pointwise (old_wave : list Q) :
  Forall2 (fun a w => a == (fun _ => 0) w) (zeros_like old_wave) old_wave.
Proof. induction old_wave; simpl; constructor; [reflexivity | assumption]. Qed.

Lemma alter_wave_power_sum (poly_coefs old_wave : list Q) :
  Forall2 (fun r w => r == power_sum poly_coefs 0 w) (alter_wave poly_coefs old_wave) old_wave.
Proof.
  unfold alter_wave.
  pose proof (alter_wave_loop_pointwise poly_coefs 0 (fun _ => 0)
                (zeros_like_pointwise old_wave)) as F.
  apply Forall2_weaken with (2 := F). intros a b H. rewrite H. ring.
Qed.

Lemma alter_wave_length (poly_coefs old_wave : list Q) :
  length (alter_wave poly_coefs old_wave) = length old_wave.
Proof. exact (Forall2_length (alter_wave_power_sum poly_coefs old_wave)). Qed.

(** Horner's rule evaluates the same polynomial. *)
Lemma power_sum_shift (coefs : list Q) (k : nat) (w : Q) :
  power_sum coefs (S k) w == w * power_sum coefs k w.
Proof.
  revert k. induction coefs as [|c coefs IH]; intro k; simpl.
  - ring.
  - rewrite (IH (S k)). ring.
Qed.

Lemma horner_power_sum (coefs : list Q) (w : Q) : horner coefs w == power_sum coefs 0 w.
Proof.
  induction coefs as [|c coefs IH]; simpl.
  - reflexivity.
  - fold (horner coefs w). rewrite IH, power_sum_shift. ring.
Qed.

(** C3: for every coefficient vector [c0, ..., cn] and every wavelength
    array [w], [alter_wave] returns an array as long as [w] whose [j]-th
    entry is the power sum [c0 + c1*w[j] + c2*w[j]^2 + ... + cn*w[j]^n]. *)
Theorem C3_alter_wave_is_power_sum (poly_coefs old_wave : list Q) :
  length (alter_wave poly_coefs old_wave) = length old_wave /\
  forall (j : nat) (w : Q),
    nth_error old_wave j = Some w ->
    exists r : Q,
      nth_error (alter_wave poly_coefs old_wave) j = Some r /\
      r == power_sum poly_coefs 0 w.
Proof.
  split; [apply alter_wave_length|].
  pose proof (alter_wave_power_sum poly_coefs old_wave) as F.
  revert F. generalize (alter_wave poly_coefs old_wave) as res.
  intros res F. induction F as [|r w' res old_wave Hr F IH]; intros j w Hj.
  - destruct j; discriminate.
  - destruct j as [|j]; simpl in *.
    + inversion Hj; subst. now exists r.
    + now apply IH.
Qed.

Example power_sum_quadratic (c0 c1 c2 w : Q) :
  power_sum [c0; c1; c2] 0 w == c0 + c1 * w + c2 * (w * w).
Proof. simpl. ring. Qed.

Example alter_wave_demo :
  alter_wave [1; 2; 3] [0; 1; 2; 3] = [1; 6; 17; 34].
Proof. vm_compute. reflexivity. Qed.

(** C10: with an empty coefficient vector [alter_wave] returns, for every
    wavelength array, the all-zero array of the same length. *)
Theorem C10_empty_coefficients_give_zeros (old_wave : list Q) :
  alter_wave [] old_wave = repeat 0 (length old_wave).
Proof. unfold alter_wave. simpl. apply zeros_like_repeat. Qed.

(** ** The standard deviation *)

Lemma fold_left_xadd_Some (l : list Q) (a : Q) :
  fold_left xadd (map Some l) (Some a) = Some (fold_left Qplus l a).
Proof. revert a. induction l as [|d l IH]; intro a; simpl; [reflexivity | apply IH]. Qed.

Lemma fold_left_xadd_None (d : list xfloat) : fold_left xadd d None = None.
Proof. induction d as [|v d IH]; simpl; [reflexivity | exact IH]. Qed.

Lemma xsum_None (d : list xfloat) : In None d -> xsum d = None.
Proof.
  unfold xsum. generalize (Some 0) as acc.
  induction d as [|v d IH]; intros acc H; simpl; [destruct H|].
  destruct H as [H|H].
  - subst v. destruct acc; simpl; apply fold_left_xadd_None.
  - now apply IH.
Qed.

Lemma fold_left_Qplus_Qsum (l : list Q) (a : Q) : fold_left Qplus l a == a + Qsum l.
Proof.
  revert a. induction l as [|d l IH]; intro a; simpl.
  - ring.
  - rewrite IH. ring.
Qed.

Lemma Qsum_map_ext (f g : Q -> Q) (l : list Q) :
  (forall d, f d == g d) -> Qsum (map f l) == Qsum (map g l).
Proof.
  intro H. induction l as [|d l IH]; simpl; [reflexivity|]. now rewrite IH, H.
Qed.

Lemma Qsum_squares_nonneg (f : Q -> Q) (l : list Q) : 0 <= Qsum (map (fun d => f d * f d) l).
Proof.
  induction l as [|d l IH]; simpl; [apply Qle_refl|].
  assert (H : 0 <= f d * f d) by nra.
  lra.
Qed.

Lemma count_pos (n : nat) : (0 < n)%nat -> 0 < count n.
Proof. intro H. unfold count, Qlt. simpl. lia. Qed.

Lemma count_nonzero (n : nat) : (0 < n)%nat -> Qeq_bool (count n) 0 = false.
Proof.
  intro H. destruct (Qeq_bool (count n) 0) eqn:E; [|reflexivity].
  apply Qeq_bool_iff in E. pose proof (count_pos H) as P. lra.
Qed.

Lemma finite_values_Some (d : list xfloat) (l : list Q) :
  finite_values d = Some l -> d = map Some l.
Proof.
  revert l. induction d as [|[q|] d IH]; intros l H; simpl in H.
  - now inversion H.
  - destruct (finite_values d) as [l'|]; [|discriminate].
    inversion H; subst. simpl. f_equal. now apply IH.
  - discriminate.
Qed.

Lemma finite_values_None (d : list xfloat) : finite_values d = None -> In None d.
Proof.
  induction d as [|[q|] d IH]; intro H; simpl in H.
  - discriminate.
  - right. apply IH. now destruct (finite_values d).
  - now left.
Qed.

(** Comparing radicands compares the real numbers: surds of non-negative
    radicands have the same value exactly when the radicands are equal. *)
Lemma Q2R_nonneg (a : Q) : 0 <= a -> (0 <= Q2R a)%R.
Proof.
  intro H. replace 0%R with (Q2R 0) by (unfold Q2R; simpl; field).
  now apply Qle_Rle.
Qed.

Lemma surd_value_eq_iff (a b : Q) :
  0 <= a -> 0 <= b -> (surd_value (Sqrt a) = surd_value (Sqrt b) <-> a == b).
Proof.
  intros Ha Hb. unfold surd_value. simpl. split; intro H.
  - apply eqR_Qeq. apply sqrt_inj; try assumption; now apply Q2R_nonneg.
  - now rewrite (Qeq_eqR _ _ H).
Qed.

(** numpy's variance of finite values: the squared deviations from the mean,
    summed and divided by [N - ddof]. *)
Lemma var_finite (ddof : nat) (l : list Q) :
  (ddof < length l)%nat ->
  exists v : Q,
    var ddof (map Some l) = Some v /\
    v == sum_sq_dev l / count (length l - ddof) /\
    0 <= v.
Proof.
  intro H. unfold var. rewrite length_map.
  unfold xsum at 2. rewrite fold_left_xadd_Some. unfold xdiv at 2.
  rewrite count_nonzero by lia.
  set (m := fold_left Qplus l 0 / count (length l)).
  assert (Hm : m == mean l).
  { unfold m, mean. rewrite fold_left_Qplus_Qsum. now rewrite Qplus_0_l. }
  rewrite map_map. simpl.
  replace (map (fun v => xmul (xsub v (Some m)) (xsub v (Some m))) (map Some l))
    with (map Some (map (fun d => (d - m) * (d - m)) l))
    by (rewrite !map_map; reflexivity).
  unfold xsum. rewrite fold_left_xadd_Some. unfold xdiv.
  rewrite count_nonzero by lia.
  eexists. split; [reflexivity|].
  assert (Hs : fold_left Qplus (map (fun d => (d - m) * (d - m)) l) 0 == sum_sq_dev l).
  { rewrite fold_left_Qplus_Qsum, Qplus_0_l. unfold sum_sq_dev.
    apply Qsum_map_ext. intro d. now rewrite Hm. }
  split.
  - now rewrite Hs.
  - rewrite fold_left_Qplus_Qsum, Qplus_0_l.
    apply Qle_shift_div_l; [apply count_pos; lia|].
    rewrite Qmult_0_l.
    apply (Qsum_squares_nonneg (fun d => d - m)).
Qed.

Lemma var_nonfinite (ddof : nat) (d : list xfloat) : In None d -> var ddof d = None.
Proof.
  intro H. unfold var. rewrite (xsum_None d H). simpl.
  rewrite xsum_None; [reflexivity|].
  rewrite map_map. apply in_map_iff.
  exists None. split; [reflexivity | exact H].
Qed.

Lemma xsqrt_nonneg (v : Q) : 0 <= v -> xsqrt (Some v) = Some (Sqrt v).
Proof.
  intro H. unfold xsqrt.
  destruct (np.Qlt_bool v 0) eqn:E; [|reflexivity].
  apply Qlt_bool_iff in E. lra.
Qed.

(** [a.std()] is the population standard deviation of the array. *)
Lemma std0_population (d : list xfloat) :
  xsurd_eq (std 0 d) (statistic population_std d).
Proof.
  unfold std, statistic. destruct (finite_values d) as [l|] eqn:E.
  - apply finite_values_Some in E. subst d.
    destruct l as [|q l]; [exact I|].
    destruct (@var_finite 0 (q :: l)) as (v & Ev & Hv & Hpos); [simpl; lia|].
    rewrite Ev, (xsqrt_nonneg Hpos). unfold population_std. simpl xsurd_eq.
    rewrite Hv. now rewrite Nat.sub_0_r.
  - apply finite_values_None in E. now rewrite (var_nonfinite 0 d E).
Qed.

(** [a.std(ddof=1)], which the notebook does not call, is the unbiased one. *)
Lemma std1_unbiased (d : list xfloat) :
  xsurd_eq (std 1 d) (statistic unbiased_std d).
Proof.
  unfold std, statistic. destruct (finite_values d) as [l|] eqn:E.
  - apply finite_values_Some in E. subst d.
    destruct l as [|q [|q' l]]; [exact I | |].
    + vm_compute. destruct q as [n dd]. now destruct n.
    + destruct (@var_finite 1 (q :: q' :: l)) as (v & Ev & Hv & Hpos); [simpl; lia|].
      rewrite Ev, (xsqrt_nonneg Hpos). unfold unbiased_std. simpl xsurd_eq.
      exact Hv.
  - apply finite_values_None in E. now rewrite (var_nonfinite 1 d E).
Qed.

(** ** The registration objective *)

Section Objective.

Variable interp1d : list Q -> list Q -> list Q -> result (list xfloat).

(** C2 (as the code behaves): whenever the resampled comparison spectrum is
    as long as the normalized reference, the objective is the population
    standard deviation (divisor [N], every sample weighing the same) of the
    element-wise difference [resampled_comparison - normalized_reference]. *)
Theorem C2_fit_metric_is_population_std
        (s : Spectra) (o : Overlap) (n : Normalized)
        (poly_coefs old_wave : list Q) (altered_spec2 : list xfloat) :
  alter_spec interp1d s o n (alter_wave poly_coefs old_wave) = Ok altered_spec2 ->
  length altered_spec2 = length (scaled_spec1 n) ->
  exists v : xsurd,
    fit_metric interp1d s o n poly_coefs old_wave = Ok v /\
    xsurd_eq v (statistic population_std
                          (np.zip_with xsub altered_spec2 (scaled_spec1 n))).
Proof.
  intros Ha Hlen. unfold fit_metric. rewrite Ha. simpl.
  rewrite (broadcast2_same_length xsub _ _ Hlen). simpl.
  eexists. split; [reflexivity | apply std0_population].
Qed.

End Objective.

Lemma C2_fit_metric_witness :
  exists v : xsurd,
    fit_metric Standin.linear_interp1d pair_spectra pair_overlap pair_normalized
               [0; 1] [1; 2] = Ok v /\
    xsurd_eq v (statistic population_std
                          (np.zip_with xsub [Some 1; Some 3] (scaled_spec1 pair_normalized))).
Proof.
  apply (@C2_fit_metric_is_population_std Standin.linear_interp1d pair_spectra
           pair_overlap pair_normalized [0; 1] [1; 2] [Some 1; Some 3]).
  - vm_compute. reflexivity.
  - reflexivity.
Defined.

(** The claim as stated fails: on [pair_spectra] the difference spectrum is
    [[-2, 0]], whose population standard deviation is [sqrt 1] and whose
    unbiased standard deviation is [sqrt 2]; the objective is the former. *)
Lemma C2_counterexample :
  exists (o : Overlap) (n : Normalized) (altered_spec2 : list xfloat),
    prepare Standin.linear_interp1d Standin.mean_fitter pair_spectra = Ok (o, n) /\
    alter_spec Standin.linear_interp1d pair_spectra o n
               (alter_wave initial_guess (wave2 pair_spectra)) = Ok altered_spec2 /\
    Forall2 xeq (np.zip_with xsub altered_spec2 (scaled_spec1 n)) [Some (-2 # 1); Some 0] /\
    metric_is (fit_metric Standin.linear_interp1d pair_spectra o n
                          initial_guess (wave2 pair_spectra))
              (Some (Sqrt 1)) /\
    xsurd_eq (statistic unbiased_std (np.zip_with xsub altered_spec2 (scaled_spec1 n)))
             (Some (Sqrt 2)) /\
    ~ metric_is (fit_metric Standin.linear_interp1d pair_spectra o n
                            initial_guess (wave2 pair_spectra))
                (statistic unbiased_std (np.zip_with xsub altered_spec2 (scaled_spec1 n))) /\
    xsurd_eq (std 0 [Some (-2 # 1); Some 0]) (Some (Sqrt 1)) /\
    xsurd_eq (std 1 [Some (-2 # 1); Some 0]) (Some (Sqrt 2)) /\
    surd_value (Sqrt 1) <> surd_value (Sqrt 2).
Proof.
  eexists. eexists. eexists.
  split; [vm_compute; reflexivity|].
  split; [vm_compute; reflexivity|].
  split; [repeat constructor|].
  split; [vm_compute; reflexivity|].
  split; [vm_compute; reflexivity|].
  split; [vm_compute; intro H; discriminate H|].
  split; [vm_compute; reflexivity|].
  split; [vm_compute; reflexivity|].
  intro H. apply surd_value_eq_iff in H; [discriminate H | q_order | q_order].
Qed.

(** ** Continuum normalization *)

Lemma take_mask_ok {A : Type} (a : list A) (mask : list bool) :
  length a = length mask -> np.take_mask a mask = Ok (np.compress a mask).
Proof. intro H. unfold np.take_mask. now rewrite H, Nat.eqb_refl. Qed.

Lemma compress_length_same {A B : Type} (a : list A) (b : list B) (mask : list bool) :
  length a = length b -> length (np.compress a mask) = length (np.compress b mask).
Proof.
  revert b mask. induction a as [|x a IH]; intros [|y b] [|[|] mask] H;
    simpl in *; try congruence; try reflexivity.
  - f_equal. apply IH. congruence.
  - apply IH. congruence.
Qed.

Lemma zip_with_combine {A B C : Type} (f : A * B -> C) (xs : list A) (ys : list B) :
  np.zip_with (fun b a => f (a, b)) ys xs = map f (combine xs ys).
Proof.
  revert ys. induction xs as [|a xs IH]; intros [|b ys]; simpl; try reflexivity.
  now rewrite IH.
Qed.

Lemma compress_combine_fst {A B : Type} (f : A * B -> bool) (xs : list A) (ys : list B) :
  length xs = length ys ->
  np.compress xs (map f (combine xs ys)) = map fst (filter f (combine xs ys)).
Proof.
  revert ys. induction xs as [|a xs IH]; intros [|b ys] H; simpl in *; try congruence.
  destruct (f (a, b)); simpl; rewrite IH by congruence; reflexivity.
Qed.

Lemma compress_combine_snd {A B : Type} (f : A * B -> bool) (xs : list A) (ys : list B) :
  length xs = length ys ->
  np.compress ys (map f (combine xs ys)) = map snd (filter f (combine xs ys)).
Proof.
  revert ys. induction xs as [|a xs IH]; intros [|b ys] H; simpl in *; try congruence.
  destruct (f (a, b)); simpl; rewrite IH by congruence; reflexivity.
Qed.

Lemma select_ok_px_same_length (div_spec : list xfloat) (out_wave : list Q) :
  length div_spec = length out_wave ->
  select_ok_px div_spec out_wave = Ok (map passes_filter (combine out_wave div_spec)).
Proof.
  intro H. unfold select_ok_px, np.and_, np.ge_scalar.
  rewrite broadcast2_same_length by now rewrite !length_map.
  f_equal. rewrite zip_with_map. apply (zip_with_combine passes_filter).
Qed.

(** Membership in the fit set: a finite ratio at a wavelength that is at
    least the cutoff. *)
Lemma fit_set_In (out_wave : list Q) (div_spec : list xfloat) (w : Q) (d : xfloat) :
  In (w, d) (fit_set out_wave div_spec) <->
  In (w, d) (combine out_wave div_spec) /\ isfinite d = true /\ cutoff <= w.
Proof.
  unfold fit_set. rewrite filter_In. unfold passes_filter. simpl.
  rewrite andb_true_iff, Qle_bool_iff. tauto.
Qed.

Section Normalization.

Variable interp1d : list Q -> list Q -> list Q -> result (list xfloat).
Variable fitter : nat -> list Q -> list xfloat -> result (list xfloat).

(** The cell up to the call of the fitter, and the call itself. *)
Lemma normalize_continuum_unfold (s : Spectra) (o : Overlap) (interp : list xfloat) :
  let out := np.compress (wave1 s) (in_wave1 o) in
  let ref := np.compress (spec1 s) (in_wave1 o) in
  let ratio := np.zip_with xdiv interp ref in
  length (wave1 s) = length (in_wave1 o) ->
  length (spec1 s) = length (in_wave1 o) ->
  length (wave2 s) = length (in_wave2 o) ->
  length (spec2 s) = length (in_wave2 o) ->
  interp1d (np.compress (wave2 s) (in_wave2 o)) (np.compress (spec2 s) (in_wave2 o)) out
  = Ok interp ->
  length interp = length out ->
  normalize_continuum interp1d fitter s o =
  (normalization <- fitter 2 (map fst (fit_set out ratio)) (map snd (fit_set out ratio)) ;;
   Ok {| out_wave := out; interp_spec2 := interp; div_spec := ratio;
         ok_px := map passes_filter (combine out ratio);
         normalization := normalization;
         flux_scale_factor := map (Polynomial1D normalization) out;
         scaled_spec1 := np.zip_with xmul (map Some ref)
                                     (map (Polynomial1D normalization) out) |}).
Proof.
  intros out ref ratio L1 L2 L3 L4 Hi Hlen.
  assert (Href : length ref = length out).
  { unfold ref, out. apply compress_length_same. congruence. }
  assert (Hratio : length ratio = length out).
  { unfold ratio. rewrite zip_with_length; congruence. }
  unfold normalize_continuum.
  rewrite (take_mask_ok _ _ L1), (take_mask_ok _ _ L3), (take_mask_ok _ _ L4),
    (take_mask_ok _ _ L2).
  simpl. fold out ref. rewrite Hi. simpl.
  rewrite broadcast2_same_length by congruence. simpl. fold ratio.
  rewrite (select_ok_px_same_length _ _ Hratio). simpl.
  rewrite take_mask_ok by (rewrite length_map, length_combine; lia).
  rewrite take_mask_ok by (rewrite length_map, length_combine; lia).
  simpl.
  rewrite (compress_combine_fst passes_filter out ratio) by congruence.
  rewrite (compress_combine_snd passes_filter out ratio) by congruence.
  fold (fit_set out ratio).
  destruct (fitter 2 (map fst (fit_set out ratio)) (map snd (fit_set out ratio)))
    as [coefs|e]; simpl; [|reflexivity].
  rewrite broadcast2_same_length by (rewrite !length_map; congruence).
  reflexivity.
Qed.

(** C7 (as the code behaves): the cell resamples the comparison spectrum
    onto the reference's overlap grid with [interp1d], divides it point by
    point by the reference flux, and hands the fitter a degree-2 polynomial
    and exactly the samples whose ratio is finite and whose wavelength is
    greater than or equal to the cutoff 1.70.  The fit yields the scale
    factor only: the scaled reference flux is a new array, the product of the
    reference flux and the fitted polynomial on the grid. *)
Theorem C7_normalization_fit (s : Spectra) (o : Overlap) (interp coefs : list xfloat) :
  let out := np.compress (wave1 s) (in_wave1 o) in
  let ref := np.compress (spec1 s) (in_wave1 o) in
  let ratio := np.zip_with xdiv interp ref in
  length (wave1 s) = length (in_wave1 o) ->
  length (spec1 s) = length (in_wave1 o) ->
  length (wave2 s) = length (in_wave2 o) ->
  length (spec2 s) = length (in_wave2 o) ->
  interp1d (np.compress (wave2 s) (in_wave2 o)) (np.compress (spec2 s) (in_wave2 o)) out
  = Ok interp ->
  length interp = length out ->
  fitter 2 (map fst (fit_set out ratio)) (map snd (fit_set out ratio)) = Ok coefs ->
  (forall (w : Q) (d : xfloat),
      In (w, d) (fit_set out ratio) <->
      In (w, d) (combine out ratio) /\ isfinite d = true /\ cutoff <= w) /\
  exists r : Normalized,
    normalize_continuum interp1d fitter s o = Ok r /\
    out_wave r = out /\
    interp_spec2 r = interp /\
    div_spec r = ratio /\
    ok_px r = map passes_filter (combine out ratio) /\
    normalization r = coefs /\
    flux_scale_factor r = map (Polynomial1D coefs) out /\
    scaled_spec1 r = np.zip_with xmul (map Some ref) (flux_scale_factor r).
Proof.
  intros out ref ratio L1 L2 L3 L4 Hi Hlen Hfit.
  split; [intros w d; apply fit_set_In|].
  eexists. split.
  - rewrite (normalize_continuum_unfold s o L1 L2 L3 L4 Hi Hlen).
    fold out ref ratio. rewrite Hfit. reflexivity.
  - simpl. repeat split; reflexivity.
Qed.

(** C6 (as the code behaves): when no sample passes the filter the cell
    makes no check of its own.  It calls the fitter on two empty arrays;
    it raises exactly when, and what, the fitter raises, and when the fitter
    returns coefficients it returns them. *)
Theorem C6_empty_fit_set_is_not_checked (s : Spectra) (o : Overlap) (interp : list xfloat) :
  let out := np.compress (wave1 s) (in_wave1 o) in
  let ref := np.compress (spec1 s) (in_wave1 o) in
  let ratio := np.zip_with xdiv interp ref in
  length (wave1 s) = length (in_wave1 o) ->
  length (spec1 s) = length (in_wave1 o) ->
  length (wave2 s) = length (in_wave2 o) ->
  length (spec2 s) = length (in_wave2 o) ->
  interp1d (np.compress (wave2 s) (in_wave2 o)) (np.compress (spec2 s) (in_wave2 o)) out
  = Ok interp ->
  length interp = length out ->
  fit_set out ratio = [] ->
  (forall e : exn,
      normalize_continuum interp1d fitter s o = Raise e <-> fitter 2 [] [] = Raise e) /\
  (forall coefs : list xfloat,
      fitter 2 [] [] = Ok coefs ->
      exists r : Normalized,
        normalize_continuum interp1d fitter s o = Ok r /\
        normalization r = coefs /\
        all_false (ok_px r)).
Proof.
  intros out ref ratio L1 L2 L3 L4 Hi Hlen Hempty.
  pose proof (normalize_continuum_unfold s o L1 L2 L3 L4 Hi Hlen) as E.
  fold out ref ratio in E. simpl in E. rewrite Hempty in E. simpl in E.
  split.
  - intro e. rewrite E. destruct (fitter 2 [] []) as [c|e']; simpl.
    + split; discriminate.
    + split; intro H; inversion H; reflexivity.
  - intros coefs Hfit. rewrite E, Hfit. simpl.
    eexists. split; [reflexivity|]. simpl. split; [reflexivity|].
    unfold fit_set in Hempty. unfold all_false.
    rewrite Forall_forall. intros b Hb.
    apply in_map_iff in Hb. destruct Hb as (wd & Hwd & Hin).
    destruct b; [|reflexivity].
    assert (Hf : In wd (filter passes_filter (combine out ratio)))
      by (apply filter_In; split; assumption).
    rewrite Hempty in Hf. destruct Hf.
Qed.

End Normalization.

Lemma C7_normalization_fit_witness :
  exists r : Normalized,
    normalize_continuum Standin.linear_interp1d Standin.mean_fitter
                        pair_spectra pair_overlap = Ok r /\
    normalization r = [Some 3; Some 0; Some 0] /\
    ok_px r = [false; true].
Proof.
  destruct (@C7_normalization_fit Standin.linear_interp1d Standin.mean_fitter
              pair_spectra pair_overlap [Some 1; Some 3] [Some 3; Some 0; Some 0])
    as [_ (r & Hr & _ & _ & _ & Hok & Hn & _)];
    try reflexivity.
  exists r. split; [exact Hr|]. split; [exact Hn | exact Hok].
Defined.

(** The claim as stated fails: a sample whose wavelength is exactly the
    cutoff is not strictly above it, and it is one of the samples fitted. *)
Lemma C7_counterexample :
  exists (o : Overlap) (n : Normalized),
    prepare Standin.linear_interp1d Standin.mean_fitter cutoff_spectra = Ok (o, n) /\
    out_wave n = [16 # 10; 17 # 10; 18 # 10] /\
    ok_px n = [false; true; true] /\
    (exists d : xfloat,
        In (17 # 10, d) (fit_set (out_wave n) (div_spec n)) /\ xeq d (Some 2)) /\
    select_ok_px [Some 2; Some 2; Some 2] [16 # 10; 17 # 10; 18 # 10]
    = Ok [false; true; true] /\
    np.Qlt_bool cutoff (17 # 10) = false.
Proof.
  eexists. eexists.
  split; [vm_compute; reflexivity|].
  split; [reflexivity|]. split; [reflexivity|].
  split; [|split; reflexivity].
  eexists. split; [vm_compute; left; reflexivity|].
  vm_compute. reflexivity.
Qed.

Lemma C6_empty_fit_set_witness :
  (forall e : exn,
      normalize_continuum Standin.linear_interp1d Standin.mean_fitter
                          blue_spectra
                          {| wave_lo := 1; wave_hi := 3 # 2;
                             in_wave1 := [true; true]; in_wave2 := [true; true] |}
      = Raise e <-> Standin.mean_fitter 2 [] [] = Raise e) /\
  (forall coefs : list xfloat,
      Standin.mean_fitter 2 [] [] = Ok coefs ->
      exists r : Normalized,
        normalize_continuum Standin.linear_interp1d Standin.mean_fitter
                            blue_spectra
                            {| wave_lo := 1; wave_hi := 3 # 2;
                               in_wave1 := [true; true]; in_wave2 := [true; true] |}
        = Ok r /\
        normalization r = coefs /\
        all_false (ok_px r)).
Proof.
  eapply (@C6_empty_fit_set_is_not_checked Standin.linear_interp1d Standin.mean_fitter
            blue_spectra
            {| wave_lo := 1; wave_hi := 3 # 2;
               in_wave1 := [true; true]; in_wave2 := [true; true] |});
    [reflexivity | reflexivity | reflexivity | reflexivity
     | vm_compute; reflexivity | reflexivity | reflexivity].
Defined.

(** The claim as stated fails: on spectra that lie wholly below the cutoff,
    and with a fitter that does not raise on empty input, the cell returns
    normally, with a [nan] coefficient, and no [DomainError] is raised. *)
Lemma C6_counterexample :
  exists (o : Overlap) (n : Normalized),
    prepare Standin.linear_interp1d Standin.mean_fitter blue_spectra = Ok (o, n) /\
    fit_set (out_wave n) (div_spec n) = [] /\
    ok_px n = [false; false] /\
    normalization n = [None; Some 0; Some 0] /\
    raises (prepare Standin.linear_interp1d Standin.mean_fitter blue_spectra) = false.
Proof.
  eexists. eexists.
  split; [vm_compute; reflexivity|].
  repeat split.
Qed.

(** ** Dispersion registration *)

Section Registration.

Variable interp1d : list Q -> list Q -> list Q -> result (list xfloat).
Variable minimize :
  (list Q -> list Q -> result xsurd) -> list Q -> list Q -> string -> result OptimizeResult.

Lemma pixel_fit_is_minimize (s : Spectra) (o : Overlap) (n : Normalized) (wave2m : list Q) :
  np.take_mask (wave2 s) (in_wave2 o) = Ok wave2m ->
  pixel_fit interp1d minimize s o n
  = minimize (fit_metric interp1d s o n) initial_guess wave2m "Nelder-Mead".
Proof. intro H. unfold pixel_fit. now rewrite H. Qed.

Lemma pixel_fit2_is_minimize (s : Spectra) (o : Overlap) (n : Normalized) (wave2m : list Q) :
  np.take_mask (wave2 s) (in_wave2 o) = Ok wave2m ->
  pixel_fit2 interp1d minimize s o n
  = minimize (fit_metric interp1d s o n) initial_guess
             (map (fun w => w * (11 # 10)) wave2m) "Nelder-Mead".
Proof. intro H. unfold pixel_fit2, bad_wave2. now rewrite H. Qed.

(** C9: when the optimizer reports non-convergence, neither fit raises: each
    returns the optimizer's report as it is, with the best coefficient
    vector, the cleared convergence flag, the final objective value and the
    iteration count; and the cell after the first fit warps the wavelengths
    with those coefficients. *)
Theorem C9_non_convergence_is_returned
        (s : Spectra) (o : Overlap) (n : Normalized) (wave2m : list Q) :
  np.take_mask (wave2 s) (in_wave2 o) = Ok wave2m ->
  (forall r : OptimizeResult,
      minimize (fit_metric interp1d s o n) initial_guess wave2m "Nelder-Mead" = Ok r ->
      success r = false ->
      (exists out : OptimizeResult,
          pixel_fit interp1d minimize s o n = Ok out /\
          x out = x r /\ success out = false /\
          fun_ out = fun_ r /\ nit out = nit r /\ status out = status r) /\
      (forall alt : list xfloat,
          alter_spec interp1d s o n (alter_wave (x r) wave2m) = Ok alt ->
          register interp1d minimize s o n
          = Ok {| fit := r; alt_wave2 := alter_wave (x r) wave2m; alt_spec2 := alt |})) /\
  (forall r : OptimizeResult,
      minimize (fit_metric interp1d s o n) initial_guess
               (map (fun w => w * (11 # 10)) wave2m) "Nelder-Mead" = Ok r ->
      success r = false ->
      exists out : OptimizeResult,
        pixel_fit2 interp1d minimize s o n = Ok out /\
        x out = x r /\ success out = false /\
        fun_ out = fun_ r /\ nit out = nit r /\ status out = status r).
Proof.
  intro Hm. split.
  - intros r Hr Hs. split.
    + exists r. rewrite (pixel_fit_is_minimize s o n Hm), Hr. now repeat split.
    + intros alt Ha. unfold register.
      rewrite (pixel_fit_is_minimize s o n Hm), Hr. simpl.
      rewrite Hm. simpl. rewrite Ha. reflexivity.
  - intros r Hr Hs. exists r.
    rewrite (pixel_fit2_is_minimize s o n Hm), Hr. now repeat split.
Qed.

End Registration.

Lemma C9_non_convergence_witness :
  exists out : OptimizeResult,
    pixel_fit Standin.linear_interp1d Standin.stalled_minimize
              pair_spectra pair_overlap pair_normalized = Ok out /\
    x out = initial_guess /\ success out = false /\ nit out = 0%nat.
Proof.
  destruct (@C9_non_convergence_is_returned
              Standin.linear_interp1d Standin.stalled_minimize
              pair_spectra pair_overlap pair_normalized [1; 2] eq_refl) as [H1 _].
  edestruct H1 as [(out & Hout & Hx & Hs & _ & Hn & _) _].
  - vm_compute. reflexivity.
  - reflexivity.
  - exists out. split; [exact Hout|]. split; [exact Hx|]. split; [exact Hs | exact Hn].
Defined.


(** * Further properties of the cells *)

(** ** Overlap selection: when it succeeds *)

Lemma broadcast2_ok_iff {A B C : Type} (f : A -> B -> C) (xs : list A) (ys : list B) :
  (exists r, np.broadcast2 f xs ys = Ok r) <-> broadcastable (length xs) (length ys).
Proof.
  unfold np.broadcast2, broadcastable.
  destruct (Nat.eqb (length xs) (length ys)) eqn:E.
  - apply Nat.eqb_eq in E. split; [intros _; now left | intros _; eauto].
  - apply Nat.eqb_neq in E.
    destruct xs as [|a [|a' xs]]; destruct ys as [|b [|b' ys]]; simpl in *;
      split; intro H;
      try (destruct H as [r H]; discriminate H);
      try (destruct H as [H | [H | H]]; simpl in H; try congruence; try lia);
      try (right; left; reflexivity); try (right; right; reflexivity); eauto.
Qed.

Lemma in_wave_ok_iff (wave spec : list Q) (lo hi : Q) :
  (exists m, in_wave wave spec lo hi = Ok m) <-> broadcastable (length wave) (length spec).
Proof.
  unfold in_wave, np.and_.
  rewrite broadcast2_same_length
    by (unfold np.ge_scalar, np.le_scalar; now rewrite !length_map).
  simpl. rewrite broadcast2_ok_iff.
  rewrite zip_with_length
    by (unfold np.ge_scalar, np.le_scalar; now rewrite !length_map).
  unfold np.ge_scalar, np.ne_scalar. now rewrite !length_map.
Qed.

(** X1: the overlap cell returns normally exactly when both wavelength arrays
    are non-empty and each flux array can be broadcast against its
    wavelength array; in every other case it raises [ValueError]. *)
Theorem X1_isolate_overlap_succeeds_iff (s : Spectra) :
  ((exists o, isolate_overlap s = Ok o) <->
   wave1 s <> [] /\ wave2 s <> [] /\
   broadcastable (length (wave1 s)) (length (spec1 s)) /\
   broadcastable (length (wave2 s)) (length (spec2 s))) /\
  ((forall o, isolate_overlap s <> Ok o) ->
   exists msg, isolate_overlap s = Raise (ValueError msg)).
Proof.
  split.
  - unfold isolate_overlap. split.
    + intros [o H].
      destruct (wave1 s) as [|a1 r1] eqn:E1; [discriminate H|].
      destruct (wave2 s) as [|a2 r2] eqn:E2; [discriminate H|].
      simpl in H.
      match type of H with
      | bind (in_wave ?w ?f ?lo ?hi) _ = _ =>
          destruct (in_wave w f lo hi) as [m1|e] eqn:Em1; [|discriminate H];
          assert (B1 : broadcastable (length w) (length f))
            by (apply (in_wave_ok_iff w f lo hi); eauto)
      end.
      simpl in H.
      match type of H with
      | bind (in_wave ?w ?f ?lo ?hi) _ = _ =>
          destruct (in_wave w f lo hi) as [m2|e] eqn:Em2; [|discriminate H];
          assert (B2 : broadcastable (length w) (length f))
            by (apply (in_wave_ok_iff w f lo hi); eauto)
      end.
      repeat split; try discriminate; assumption.
    + intros (N1 & N2 & B1 & B2).
      destruct (amin_spec N1) as (min1 & E1 & _).
      destruct (amin_spec N2) as (min2 & E2 & _).
      destruct (amax_spec N1) as (max1 & E3 & _).
      destruct (amax_spec N2) as (max2 & E4 & _).
      rewrite E1, E2, E3, E4. simpl.
      apply (in_wave_ok_iff _ _ (py_max min1 min2) (py_min max1 max2)) in B1, B2.
      destruct B1 as [m1 B1], B2 as [m2 B2]. rewrite B1. simpl. rewrite B2. simpl.
      eauto.
  - intro H. destruct (isolate_overlap s) as [o|e] eqn:E.
    + exfalso. now apply (H o).
    + destruct (isolate_overlap_raises_ValueError s E) as [msg ->]. eauto.
Qed.

(** ** Overlap selection: what the masks keep *)

Lemma isolate_overlap_inv (s : Spectra) (o : Overlap) :
  isolate_overlap s = Ok o ->
  length (wave1 s) = length (spec1 s) ->
  length (wave2 s) = length (spec2 s) ->
  exists min1 min2 max1 max2 : Q,
    is_min min1 (wave1 s) /\ is_min min2 (wave2 s) /\
    is_max max1 (wave1 s) /\ is_max max2 (wave2 s) /\
    wave_lo o = py_max min1 min2 /\ wave_hi o = py_min max1 max2 /\
    in_wave1 o = np.zip_with (in_range (wave_lo o) (wave_hi o)) (wave1 s) (spec1 s) /\
    in_wave2 o = np.zip_with (in_range (wave_lo o) (wave_hi o)) (wave2 s) (spec2 s).
Proof.
  intros H L1 L2.
  assert (N1 : wave1 s <> []).
  { intro E. unfold isolate_overlap in H. rewrite E in H. discriminate H. }
  assert (N2 : wave2 s <> []).
  { intro E. unfold isolate_overlap in H. rewrite E in H.
    destruct (np.amin (wave1 s)); discriminate H. }
  destruct (amin_spec N1) as (min1 & E1 & M1).
  destruct (amin_spec N2) as (min2 & E2 & M2).
  destruct (amax_spec N1) as (max1 & E3 & M3).
  destruct (amax_spec N2) as (max2 & E4 & M4).
  rewrite (isolate_overlap_ok s E1 E2 E3 E4 L1 L2) in H.
  inversion H; subst o; clear H. simpl.
  exists min1, min2, max1, max2.
  split; [exact M1|]. split; [exact M2|]. split; [exact M3|]. split; [exact M4|].
  repeat split.
Qed.

Lemma compress_zip_with_Forall_l {A B : Type} (f : A -> B -> bool) (P : A -> Prop)
      (xs : list A) (ys : list B) :
  (forall a b, f a b = true -> P a) ->
  Forall P (np.compress xs (np.zip_with f xs ys)).
Proof.
  intro H. revert ys. induction xs as [|a xs IH]; intros [|b ys]; simpl;
    try constructor.
  destruct (f a b) eqn:E; [constructor; eauto | apply IH].
Qed.

Lemma compress_zip_with_Forall_r {A B : Type} (f : A -> B -> bool) (P : B -> Prop)
      (xs : list A) (ys : list B) :
  (forall a b, f a b = true -> P b) ->
  Forall P (np.compress ys (np.zip_with f xs ys)).
Proof.
  intro H. revert ys. induction xs as [|a xs IH]; intros [|b ys]; simpl;
    try constructor.
  destruct (f a b) eqn:E; [constructor; eauto | apply IH].
Qed.

Lemma within_bounds_bracketed (w1 w2 : list Q) (min1 min2 max1 max2 w : Q) :
  is_min min1 w1 -> is_min min2 w2 -> is_max max1 w1 -> is_max max2 w2 ->
  py_max min1 min2 <= w -> w <= py_min max1 max2 ->
  bracketed_by w1 w /\ bracketed_by w2 w.
Proof.
  intros [I1 _] [I2 _] [I3 _] [I4 _] Hlo Hhi.
  rewrite py_max_Qmax in Hlo. rewrite py_min_Qmin in Hhi.
  pose proof (Q.le_max_l min1 min2). pose proof (Q.le_max_r min1 min2).
  pose proof (Q.le_min_l max1 max2). pose proof (Q.le_min_r max1 max2).
  split.
  - exists min1, max1. repeat split; try assumption; lra.
  - exists min2, max2. repeat split; try assumption; lra.
Qed.

(** X2: on spectra with matching array lengths, every wavelength the masks
    keep lies between two wavelengths of each spectrum, every flux they keep
    is non-zero, and the kept wavelengths and fluxes of a spectrum pair up
    one to one. *)
Theorem X2_masked_samples (s : Spectra) (o : Overlap) :
  isolate_overlap s = Ok o ->
  length (wave1 s) = length (spec1 s) ->
  length (wave2 s) = length (spec2 s) ->
  let kept_wave1 := np.compress (wave1 s) (in_wave1 o) in
  let kept_spec1 := np.compress (spec1 s) (in_wave1 o) in
  let kept_wave2 := np.compress (wave2 s) (in_wave2 o) in
  let kept_spec2 := np.compress (spec2 s) (in_wave2 o) in
  Forall (fun w => bracketed_by (wave1 s) w /\ bracketed_by (wave2 s) w) kept_wave1 /\
  Forall (fun w => bracketed_by (wave1 s) w /\ bracketed_by (wave2 s) w) kept_wave2 /\
  Forall (fun f => ~ f == 0) kept_spec1 /\
  Forall (fun f => ~ f == 0) kept_spec2 /\
  length kept_wave1 = length kept_spec1 /\
  length kept_wave2 = length kept_spec2.
Proof.
  intros H L1 L2.
  destruct (isolate_overlap_inv s H L1 L2)
    as (min1 & min2 & max1 & max2 & M1 & M2 & M3 & M4 & Elo & Ehi & Em1 & Em2).
  simpl. rewrite Em1, Em2.
  assert (Hw : forall w f, in_range (wave_lo o) (wave_hi o) w f = true ->
                           bracketed_by (wave1 s) w /\ bracketed_by (wave2 s) w).
  { intros w f E. apply in_range_iff in E. destruct E as [[Hlo Hhi] _].
    rewrite Elo in Hlo. rewrite Ehi in Hhi.
    exact (within_bounds_bracketed M1 M2 M3 M4 Hlo Hhi). }
  assert (Hf : forall w f, in_range (wave_lo o) (wave_hi o) w f = true -> ~ f == 0).
  { intros w f E. apply in_range_iff in E. tauto. }
  split; [now apply compress_zip_with_Forall_l|].
  split; [now apply compress_zip_with_Forall_l|].
  split; [now apply compress_zip_with_Forall_r|].
  split; [now apply compress_zip_with_Forall_r|].
  split; now apply compress_length_same.
Qed.

Lemma X2_masked_samples_witness :
  Forall (fun f => ~ f == 0) (np.compress (spec1 demo_spectra) [false; false; true; true]) /\
  length (np.compress (wave1 demo_spectra) [false; false; true; true]) = 2%nat.
Proof.
  destruct (@X2_masked_samples demo_spectra
              {| wave_lo := 2; wave_hi := 4;
                 in_wave1 := [false; false; true; true];
                 in_wave2 := [true; true; false] |}
              eq_refl eq_refl eq_refl) as (_ & _ & H3 & _ & _ & _).
  split; [exact H3 | reflexivity].
Defined.

(** ** Overlap selection: symmetry and the bounds *)

Lemma Qle_bool_compat (a a' b b' : Q) : a == a' -> b == b' -> Qle_bool a b = Qle_bool a' b'.
Proof.
  intros Ha Hb.
  destruct (Qle_bool a b) eqn:E1, (Qle_bool a' b') eqn:E2; try reflexivity.
  - apply Qle_bool_iff in E1. rewrite Ha, Hb in E1. apply Qle_bool_iff in E1. congruence.
  - apply Qle_bool_iff in E2. rewrite <- Ha, <- Hb in E2. apply Qle_bool_iff in E2.
    congruence.
Qed.

Lemma in_wave_bounds_ext (wave spec : list Q) (lo lo' hi hi' : Q) :
  lo == lo' -> hi == hi' -> in_wave wave spec lo hi = in_wave wave spec lo' hi'.
Proof.
  intros Hlo Hhi. unfold in_wave, np.ge_scalar, np.le_scalar.
  rewrite (map_ext (fun x => Qle_bool lo x) (fun x => Qle_bool lo' x))
    by (intro x; now apply Qle_bool_compat).
  rewrite (map_ext (fun x => Qle_bool x hi) (fun x => Qle_bool x hi'))
    by (intro x; now apply Qle_bool_compat).
  reflexivity.
Qed.

Lemma py_max_comm (a b : Q) : py_max a b == py_max b a.
Proof. rewrite !py_max_Qmax. apply Q.max_comm. Qed.

Lemma py_min_comm (a b : Q) : py_min a b == py_min b a.
Proof. rewrite !py_min_Qmin. apply Q.min_comm. Qed.

(** X3: overlap selection treats the two spectra alike: naming them the
    other way round gives the same bounds and the same masks, exchanged. *)
Theorem X3_isolate_overlap_symmetric (s : Spectra) (o : Overlap) :
  isolate_overlap s = Ok o ->
  exists o' : Overlap,
    isolate_overlap (swap_spectra s) = Ok o' /\
    wave_lo o' == wave_lo o /\ wave_hi o' == wave_hi o /\
    in_wave1 o' = in_wave2 o /\ in_wave2 o' = in_wave1 o.
Proof.
  unfold isolate_overlap. simpl. intro H.
  destruct (np.amin (wave1 s)) as [min1|] eqn:E1; [|discriminate H].
  destruct (np.amin (wave2 s)) as [min2|] eqn:E2; [|discriminate H].
  destruct (np.amax (wave1 s)) as [max1|] eqn:E3; [|discriminate H].
  destruct (np.amax (wave2 s)) as [max2|] eqn:E4; [|discriminate H].
  simpl in *.
  rewrite (in_wave_bounds_ext (wave2 s) (spec2 s) (py_max_comm min2 min1)
             (py_min_comm max2 max1)).
  rewrite (in_wave_bounds_ext (wave1 s) (spec1 s) (py_max_comm min2 min1)
             (py_min_comm max2 max1)).
  destruct (in_wave (wave1 s) (spec1 s) _ _) as [m1|] eqn:Em1; [|discriminate H].
  simpl in H.
  destruct (in_wave (wave2 s) (spec2 s) _ _) as [m2|] eqn:Em2; [|discriminate H].
  simpl in H. inversion H; subst o; clear H. simpl.
  eexists. split; [reflexivity|]. simpl.
  repeat split; [apply py_max_comm | apply py_min_comm].
Qed.

Lemma X3_isolate_overlap_symmetric_witness :
  exists o' : Overlap,
    isolate_overlap (swap_spectra demo_spectra) = Ok o' /\
    in_wave1 o' = [true; true; false] /\ in_wave2 o' = [false; false; true; true].
Proof.
  destruct (@X3_isolate_overlap_symmetric demo_spectra
              {| wave_lo := 2; wave_hi := 4;
                 in_wave1 := [false; false; true; true];
                 in_wave2 := [true; true; false] |} eq_refl)
    as (o' & H & _ & _ & H1 & H2).
  exists o'. split; [exact H|]. split; [exact H1 | exact H2].
Defined.

Lemma is_min_le_is_max (m M : Q) (a : list Q) : is_min m a -> is_max M a -> m <= M.
Proof.
  intros [_ Hall] [Hin _]. rewrite Forall_forall in Hall. now apply Hall.
Qed.

Lemma isolate_overlap_bounds (s : Spectra) (o : Overlap) :
  isolate_overlap s = Ok o ->
  exists min1 min2 max1 max2 : Q,
    is_min min1 (wave1 s) /\ is_min min2 (wave2 s) /\
    is_max max1 (wave1 s) /\ is_max max2 (wave2 s) /\
    wave_lo o = py_max min1 min2 /\ wave_hi o = py_min max1 max2.
Proof.
  intro H.
  assert (N1 : wave1 s <> []).
  { intro E. unfold isolate_overlap in H. rewrite E in H. discriminate H. }
  assert (N2 : wave2 s <> []).
  { intro E. unfold isolate_overlap in H. rewrite E in H.
    destruct (np.amin (wave1 s)); discriminate H. }
  destruct (amin_spec N1) as (min1 & E1 & M1).
  destruct (amin_spec N2) as (min2 & E2 & M2).
  destruct (amax_spec N1) as (max1 & E3 & M3).
  destruct (amax_spec N2) as (max2 & E4 & M4).
  unfold isolate_overlap in H. rewrite E1, E2, E3, E4 in H. simpl in H.
  destruct (in_wave (wave1 s) (spec1 s) _ _) as [m1|]; [|discriminate H].
  simpl in H.
  destruct (in_wave (wave2 s) (spec2 s) _ _) as [m2|]; [|discriminate H].
  simpl in H. inversion H; subst o; clear H. simpl.
  exists min1, min2, max1, max2.
  split; [exact M1|]. split; [exact M2|]. split; [exact M3|]. split; [exact M4|].
  split; reflexivity.
Qed.

(** X4: the bounds the cell returns are crossed, [wave_hi < wave_lo],
    exactly when the wavelength ranges of the two spectra are disjoint;
    otherwise [wave_lo <= wave_hi]. *)
Theorem X4_bounds_crossed_iff_disjoint (s : Spectra) (o : Overlap) :
  isolate_overlap s = Ok o ->
  (wave_hi o < wave_lo o <-> ranges_disjoint (wave1 s) (wave2 s)) /\
  (wave_lo o <= wave_hi o <-> ~ ranges_disjoint (wave1 s) (wave2 s)).
Proof.
  intro H.
  destruct (isolate_overlap_bounds s H)
    as (min1 & min2 & max1 & max2 & M1 & M2 & M3 & M4 & Elo & Ehi).
  assert (Hx : wave_hi o < wave_lo o <-> ranges_disjoint (wave1 s) (wave2 s)).
  { rewrite Elo, Ehi. split.
    - intro Hc. exists min1, max1, min2, max2.
      split; [exact M1|]. split; [exact M3|]. split; [exact M2|]. split; [exact M4|].
      pose proof (is_min_le_is_max M1 M3). pose proof (is_min_le_is_max M2 M4).
      rewrite py_min_Qmin, py_max_Qmax in Hc.
      destruct (Q.max_spec min1 min2) as [[? Emax]|[? Emax]];
        destruct (Q.min_spec max1 max2) as [[? Emin]|[? Emin]];
        rewrite Emax, Emin in Hc; lra.
    - apply disjoint_bounds_cross; assumption. }
  split; [exact Hx|].
  rewrite <- Hx. split; intro Hc; lra.
Qed.

Lemma X4_bounds_crossed_witness :
  (2 < 5 <-> ranges_disjoint (wave1 apart_spectra) (wave2 apart_spectra)) /\
  (5 <= 2 <-> ~ ranges_disjoint (wave1 apart_spectra) (wave2 apart_spectra)).
Proof.
  exact (@X4_bounds_crossed_iff_disjoint apart_spectra
           {| wave_lo := 5; wave_hi := 2;
              in_wave1 := [false; false]; in_wave2 := [false; false] |} eq_refl).
Defined.

Lemma ne_scalar_same_zero_pixels (f g : list Q) :
  same_zero_pixels f g -> np.ne_scalar f 0 = np.ne_scalar g 0.
Proof.
  intro H. unfold np.ne_scalar.
  induction H as [|a b f g Hab H IH]; simpl; [reflexivity|].
  rewrite IH. f_equal. f_equal.
  destruct (Qeq_bool a 0) eqn:Ea, (Qeq_bool b 0) eqn:Eb; try reflexivity.
  - apply Qeq_bool_iff in Ea. apply Hab in Ea. apply Qeq_bool_iff in Ea. congruence.
  - apply Qeq_bool_iff in Eb. apply Hab in Eb. apply Qeq_bool_iff in Eb. congruence.
Qed.

(** X5: overlap selection reads the fluxes only to tell zero from non-zero:
    two inputs with the same wavelengths whose fluxes vanish at the same
    pixels give the same bounds, the same masks, or the same error. *)
Theorem X5_masks_depend_on_zero_pixels_only (s : Spectra) (flux1 flux2 : list Q) :
  same_zero_pixels (spec1 s) flux1 ->
  same_zero_pixels (spec2 s) flux2 ->
  isolate_overlap {| wave1 := wave1 s; spec1 := flux1; wave2 := wave2 s; spec2 := flux2 |}
  = isolate_overlap s.
Proof.
  intros H1 H2. unfold isolate_overlap, in_wave. simpl.
  now rewrite (ne_scalar_same_zero_pixels H1), (ne_scalar_same_zero_pixels H2).
Qed.

Lemma X5_masks_depend_on_zero_pixels_witness :
  isolate_overlap {| wave1 := wave1 demo_spectra; spec1 := [10; 0; 14; 16];
                     wave2 := wave2 demo_spectra; spec2 := [3; 3; 3] |}
  = isolate_overlap demo_spectra.
Proof.
  apply (@X5_masks_depend_on_zero_pixels_only demo_spectra [10; 0; 14; 16] [3; 3; 3]).
  - repeat constructor; intro H; try discriminate H.
  - repeat constructor; intro H; discriminate H.
Defined.

(** ** Continuum normalization: errors *)

Tactic Notation "bind_ok" hyp(H) ident(v) ident(E) :=
  match type of H with
  | bind ?r _ = Ok _ => destruct r as [v|] eqn:E; [simpl in H | discriminate H]
  end.

Lemma take_mask_inv {A : Type} (a : list A) (mask : list bool) (r : list A) :
  np.take_mask a mask = Ok r -> length a = length mask /\ r = np.compress a mask.
Proof.
  unfold np.take_mask. destruct (Nat.eqb (length a) (length mask)) eqn:E; intro H.
  - apply Nat.eqb_eq in E. inversion H. now split.
  - discriminate H.
Qed.

Lemma take_mask_mismatch {A : Type} (a : list A) (mask : list bool) :
  length a <> length mask -> exists msg, np.take_mask a mask = Raise (IndexError msg).
Proof.
  intro H. unfold np.take_mask. apply Nat.eqb_neq in H. rewrite H. eauto.
Qed.

Section NormalizationFurther.

Variable interp1d : list Q -> list Q -> list Q -> result (list xfloat).
Variable fitter : nat -> list Q -> list xfloat -> result (list xfloat).

(** X7: when a mask is not as long as the array it indexes ([wave1] with
    [in_wave1], or [wave2] or [spec2] with [in_wave2]) the cell raises
    [IndexError], whatever the library routines would do. *)
Theorem X7_mask_mismatch_raises_IndexError (s : Spectra) (o : Overlap) :
  length (wave1 s) <> length (in_wave1 o) \/
  length (wave2 s) <> length (in_wave2 o) \/
  length (spec2 s) <> length (in_wave2 o) ->
  exists msg, normalize_continuum interp1d fitter s o = Raise (IndexError msg).
Proof.
  intro H. unfold normalize_continuum.
  destruct (Nat.eq_dec (length (wave1 s)) (length (in_wave1 o))) as [E1|N1].
  - rewrite (take_mask_ok _ _ E1). simpl.
    destruct (Nat.eq_dec (length (wave2 s)) (length (in_wave2 o))) as [E2|N2].
    + rewrite (take_mask_ok _ _ E2). simpl.
      destruct (Nat.eq_dec (length (spec2 s)) (length (in_wave2 o))) as [E3|N3].
      * exfalso. tauto.
      * destruct (take_mask_mismatch (spec2 s) (in_wave2 o) N3) as [msg ->]. simpl. eauto.
    + destruct (take_mask_mismatch (wave2 s) (in_wave2 o) N2) as [msg ->]. simpl. eauto.
  - destruct (take_mask_mismatch (wave1 s) (in_wave1 o) N1) as [msg ->]. simpl. eauto.
Qed.

(** What a successful run of the cell leaves in its bindings. *)
Lemma normalize_continuum_inv (s : Spectra) (o : Overlap) (n : Normalized) :
  normalize_continuum interp1d fitter s o = Ok n ->
  let ref := np.compress (spec1 s) (in_wave1 o) in
  out_wave n = np.compress (wave1 s) (in_wave1 o) /\
  length ref = length (out_wave n) /\
  length (div_spec n) = length (out_wave n) /\
  length (ok_px n) = length (out_wave n) /\
  flux_scale_factor n = map (Polynomial1D (normalization n)) (out_wave n) /\
  scaled_spec1 n = np.zip_with xmul (map Some ref) (flux_scale_factor n).
Proof.
  unfold normalize_continuum. intro H.
  bind_ok H out E1. bind_ok H w2 E2. bind_ok H f2 E3. bind_ok H interp E4.
  bind_ok H f1 E5. bind_ok H ratio E6. bind_ok H ok E7.
  bind_ok H fx E8. bind_ok H fy E9. bind_ok H coefs E10.
  bind_ok H scaled E12.
  inversion H; subst n; clear H. simpl.
  apply take_mask_inv in E1, E5, E8, E9.
  destruct E1 as [K1 ->], E5 as [K5 ->], E8 as [K8 _], E9 as [K9 _].
  assert (Href : length (np.compress (spec1 s) (in_wave1 o))
                 = length (np.compress (wave1 s) (in_wave1 o)))
    by (apply compress_length_same; congruence).
  rewrite broadcast2_same_length in E12 by (rewrite !length_map; exact Href).
  inversion E12; subst scaled.
  repeat split; try assumption; congruence.
Qed.

End NormalizationFurther.

Lemma X7_mask_mismatch_witness :
  exists msg,
    normalize_continuum Standin.linear_interp1d Standin.mean_fitter pair_spectra
                        {| wave_lo := 1; wave_hi := 2;
                           in_wave1 := [true]; in_wave2 := [true; true] |}
    = Raise (IndexError msg).
Proof.
  apply (@X7_mask_mismatch_raises_IndexError Standin.linear_interp1d Standin.mean_fitter
           pair_spectra
           {| wave_lo := 1; wave_hi := 2; in_wave1 := [true]; in_wave2 := [true; true] |}).
  left. simpl. discriminate.
Defined.

(** ** A non-finite fitted coefficient *)

Lemma Polynomial1D_nonfinite (coeffs : list xfloat) (w : Q) :
  In None coeffs -> Polynomial1D coeffs w = None.
Proof.
  unfold Polynomial1D. induction coeffs as [|c coeffs IH]; intro H; [destruct H|].
  simpl. destruct H as [H|H].
  - now subst c.
  - rewrite (IH H). now destruct c.
Qed.

Lemma zip_with_xmul_nonfinite (a b : list xfloat) :
  Forall (fun v => v = None) b -> Forall (fun v => v = None) (np.zip_with xmul a b).
Proof.
  intro H. revert a. induction H as [|v b Hv H IH]; intros [|u a]; simpl;
    try constructor.
  - subst v. now destruct u.
  - apply IH.
Qed.

Lemma zip_with_xsub_nonfinite (a b : list xfloat) :
  Forall (fun v => v = None) b -> length a = length b -> b <> [] ->
  In None (np.zip_with xsub a b).
Proof.
  intros H Hlen Hne. destruct b as [|v b]; [congruence|].
  destruct a as [|u a]; [discriminate Hlen|].
  inversion H; subst. left. now destruct u.
Qed.

Section Poisoned.

Variable interp1d : list Q -> list Q -> list Q -> result (list xfloat).
Variable fitter : nat -> list Q -> list xfloat -> result (list xfloat).

(** X8: when the fitter returns a non-finite coefficient (as it may on an
    empty fit set) and the overlap holds at least one sample, the scaled
    reference is [nan] at every wavelength and the objective is [nan] for
    every trial coefficient vector whose resampled spectrum has the length
    of the reference. *)
Theorem X8_nonfinite_coefficient_makes_objective_nan
        (s : Spectra) (o : Overlap) (n : Normalized)
        (poly_coefs old_wave : list Q) (altered_spec2 : list xfloat) :
  normalize_continuum interp1d fitter s o = Ok n ->
  In None (normalization n) ->
  out_wave n <> [] ->
  alter_spec interp1d s o n (alter_wave poly_coefs old_wave) = Ok altered_spec2 ->
  length altered_spec2 = length (scaled_spec1 n) ->
  Forall (fun v => v = None) (scaled_spec1 n) /\
  fit_metric interp1d s o n poly_coefs old_wave = Ok None.
Proof.
  intros Hn Hnan Hne Ha Hlen.
  destruct (normalize_continuum_inv _ _ _ _ Hn) as (_ & Href & _ & _ & Hfsf & Hsc).
  assert (Hall : Forall (fun v => v = None) (scaled_spec1 n)).
  { rewrite Hsc. apply zip_with_xmul_nonfinite. rewrite Hfsf.
    apply Forall_forall. intros v Hv. apply in_map_iff in Hv.
    destruct Hv as (w & <- & _). now apply Polynomial1D_nonfinite. }
  split; [exact Hall|].
  assert (Hsne : scaled_spec1 n <> []).
  { intro E. apply Hne. apply length_zero_iff_nil.
    rewrite <- Href. apply (f_equal (@length _)) in E.
    rewrite Hsc, zip_with_length in E by (rewrite Hfsf, !length_map; exact Href).
    now rewrite length_map in E. }
  unfold fit_metric. rewrite Ha. simpl.
  rewrite (broadcast2_same_length xsub _ _ Hlen). simpl.
  unfold std. now rewrite (var_nonfinite 0 _ (zip_with_xsub_nonfinite _ Hall Hlen Hsne)).
Qed.

End Poisoned.

Lemma X8_nonfinite_coefficient_witness :
  exists (o : Overlap) (n : Normalized),
    prepare Standin.linear_interp1d Standin.mean_fitter blue_spectra = Ok (o, n) /\
    fit_metric Standin.linear_interp1d blue_spectra o n initial_guess (wave2 blue_spectra)
    = Ok None.
Proof.
  eexists. eexists. split; [vm_compute; reflexivity|].
  eapply (@X8_nonfinite_coefficient_makes_objective_nan
            Standin.linear_interp1d Standin.mean_fitter).
  - vm_compute. reflexivity.
  - left. reflexivity.
  - discriminate.
  - vm_compute. reflexivity.
  - reflexivity.
Defined.

(** ** The objective: when it is [nan], and when it fails *)

Lemma std0_nonfinite_iff (d : list xfloat) : std 0 d = None <-> d = [] \/ In None d.
Proof.
  split.
  - intro H. destruct (finite_values d) as [l|] eqn:E.
    + apply finite_values_Some in E. subst d.
      destruct l as [|q l]; [now left|]. exfalso.
      destruct (@var_finite 0 (q :: l)) as (v & Ev & _ & Hpos); [simpl; lia|].
      unfold std in H. rewrite Ev, (xsqrt_nonneg Hpos) in H. discriminate H.
    + right. now apply finite_values_None.
  - intros [-> | H]; [reflexivity|]. unfold std. now rewrite (var_nonfinite 0 d H).
Qed.

Section ObjectiveFurther.

Variable interp1d : list Q -> list Q -> list Q -> result (list xfloat).

(** X12: when the resampled spectrum is as long as the reference and the
    difference spectrum is empty or holds a non-finite value, the objective
    returns [nan]; nothing is raised. *)
Theorem X12_nonfinite_difference_gives_nan
        (s : Spectra) (o : Overlap) (n : Normalized)
        (poly_coefs old_wave : list Q) (altered_spec2 : list xfloat) :
  let diff_spec := np.zip_with xsub altered_spec2 (scaled_spec1 n) in
  alter_spec interp1d s o n (alter_wave poly_coefs old_wave) = Ok altered_spec2 ->
  length altered_spec2 = length (scaled_spec1 n) ->
  diff_spec = [] \/ In None diff_spec ->
  fit_metric interp1d s o n poly_coefs old_wave = Ok None.
Proof.
  intros diff_spec Ha Hlen Hd. unfold fit_metric. rewrite Ha. simpl.
  rewrite (broadcast2_same_length xsub _ _ Hlen). simpl. fold diff_spec.
  f_equal. now apply std0_nonfinite_iff.
Qed.


End ObjectiveFurther.

Lemma X12_nonfinite_difference_witness :
  fit_metric Standin.linear_interp1d pair_spectra pair_overlap
             {| out_wave := [1; 2]; interp_spec2 := [Some 1; Some 3];
                div_spec := [Some 1; Some 3]; ok_px := [false; true];
                normalization := [Some 3; Some 0; Some 0];
                flux_scale_factor := [Some 3; None];
                scaled_spec1 := [Some 3; None] |}
             [0; 1] [1; 2] = Ok None.
Proof.
  apply (@X12_nonfinite_difference_gives_nan Standin.linear_interp1d pair_spectra
           pair_overlap _ [0; 1] [1; 2] [Some 1; Some 3]).
  - vm_compute. reflexivity.
  - reflexivity.
  - right. right. left. reflexivity.
Defined.

(** * The warp in double precision *)

Section DoublePrecision.

Import PrimFloat SpecFloat FloatOps FloatAxioms.

#[local] Set Warnings "-inexact-float".

(** ** Facts of binary64 arithmetic *)

Lemma Prim2SF_one : Prim2SF one = S754_finite false 4503599627370496 (-52).
Proof. vm_compute. reflexivity. Qed.

Lemma Prim2SF_zero : Prim2SF zero = S754_zero false.
Proof. vm_compute. reflexivity. Qed.

Lemma digits2_pos_shift52 (m : positive) :
  Zpos (digits2_pos (4503599627370496 * m)) = (Zpos (digits2_pos m) + 52)%Z.
Proof. cbn [Pos.mul digits2_pos]. lia. Qed.

(** The product of the mantissa of [1.0] and a canonical mantissa rounds
    back to that mantissa. *)
Lemma round_mul_one (s : bool) (m : positive) (e : Z) :
  bounded prec emax m e = true ->
  binary_round_aux prec emax s (Zpos (4503599627370496 * m)) (-52 + e) loc_Exact
  = S754_finite s m e.
Proof.
  unfold bounded, canonical_mantissa. rewrite andb_true_iff, Z.eqb_eq, Z.leb_le.
  intros [Hc Hb].
  unfold binary_round_aux, shr_fexp.
  unfold Zdigits2 at 1. rewrite digits2_pos_shift52.
  replace (Z.pos (digits2_pos m) + 52 + (-52 + e))%Z
    with (Z.pos (digits2_pos m) + e)%Z by lia.
  rewrite Hc.
  replace (e - (-52 + e))%Z with 52%Z by lia.
  unfold shr at 1.
  cbn [shr_record_of_loc Pos.mul iter_pos shr_1 orb shr_m shr_r shr_s
       loc_of_shr_record round_nearest_even].
  replace (-52 + e + 52)%Z with e by lia.
  unfold Zdigits2. rewrite Hc, Z.sub_diag. unfold shr. cbn [shr_m].
  apply Z.leb_le in Hb. rewrite Hb. reflexivity.
Qed.

(** [1.0 * x] is [x], for every double. *)
Lemma mul_one_l (x : float) : mul one x = x.
Proof.
  apply Prim2SF_inj. rewrite mul_spec, Prim2SF_one.
  pose proof (Prim2SF_valid x) as V.
  destruct (Prim2SF x) as [s|s| |s m e]; try reflexivity.
  unfold SF64mul, SFmul. cbn [xorb]. apply round_mul_one. exact V.
Qed.

Lemma Prim2SF_infinity : Prim2SF infinity = S754_infinity false.
Proof. vm_compute. reflexivity. Qed.

Lemma Prim2SF_neg_zero : Prim2SF neg_zero = S754_zero true.
Proof. vm_compute. reflexivity. Qed.

Lemma Prim2SF_nan : Prim2SF nan = S754_nan.
Proof. vm_compute. reflexivity. Qed.

Lemma SFeqb_finite_refl (s : bool) (m : positive) (e : Z) :
  SFeqb (S754_finite s m e) (S754_finite s m e) = true.
Proof.
  unfold SFeqb, SFcompare.
  destruct s; rewrite Z.compare_refl, Pos.compare_cont_refl; reflexivity.
Qed.

(** [is_finite] holds of the zeros and of the finite non-zero doubles. *)
Lemma is_finite_spec (x : float) :
  is_finite x = match Prim2SF x with
                | S754_zero _ | S754_finite _ _ _ => true
                | _ => false
                end.
Proof.
  unfold is_finite, is_nan, is_infinity.
  rewrite !eqb_spec, abs_spec, Prim2SF_infinity.
  destruct (Prim2SF x) as [s|s| |s m e];
    try reflexivity; try (destruct s; reflexivity).
  cbn [SFabs]. rewrite SFeqb_finite_refl. reflexivity.
Qed.

(** ** The initial guess *)

(** Entry by entry, the three turns of the loop on [[0., 1., 0.]]. *)
Lemma alter_wave_initial_guess (libm_pow : float -> nat -> float) (old_wave : list float) :
  F64.alter_wave libm_pow F64.initial_guess old_wave
  = map (fun w => add (add (add zero (mul zero one)) (mul one w)) (mul zero (mul w w)))
        old_wave.
Proof.
  unfold F64.alter_wave, F64.initial_guess, F64.zeros_like.
  cbn [enumerate fold_left F64.alter_wave_step F64.power].
  induction old_wave as [|w old_wave IH]; [reflexivity|].
  cbn [map np.zip_with]. f_equal. exact IH.
Qed.

Lemma zero_plus_zero_times_one : add zero (mul zero one) = zero.
Proof. vm_compute. reflexivity. Qed.

(** What one entry of the warp by the initial guess is worth. *)
Lemma initial_guess_entry (w : float) :
  let r := add (add zero w) (mul zero (mul w w)) in
  if is_finite (mul w w)
  then (r = w \/ (w = neg_zero /\ r = zero)) /\ eqb r w = true
  else r = nan.
Proof.
  intro r.
  assert (HR : Prim2SF r
               = SF64add (SF64add (S754_zero false) (Prim2SF w))
                         (SF64mul (S754_zero false) (SF64mul (Prim2SF w) (Prim2SF w)))).
  { unfold r. now rewrite !add_spec, !mul_spec, Prim2SF_zero. }
  rewrite is_finite_spec, mul_spec, eqb_spec.
  destruct (Prim2SF w) as [s|s| |s m e] eqn:EW.
  - (* a zero *)
    assert (HR' : Prim2SF r = S754_zero false) by (rewrite HR; now destruct s).
    cbn [SF64mul SFmul]. rewrite HR'. split; [|reflexivity].
    destruct s.
    + right. split; apply Prim2SF_inj.
      * now rewrite EW, Prim2SF_neg_zero.
      * now rewrite HR', Prim2SF_zero.
    + left. apply Prim2SF_inj. now rewrite HR', EW.
  - (* an infinity *)
    cbn [SF64mul SFmul]. apply Prim2SF_inj. rewrite HR, Prim2SF_nan. now destruct s.
  - (* nan *)
    cbn [SF64mul SFmul]. apply Prim2SF_inj. now rewrite HR, Prim2SF_nan.
  - (* finite and not zero *)
    revert HR.
    generalize (SF64mul (S754_finite s m e) (S754_finite s m e)) as sq.
    intros [s'|s'| |s' m' e'] HR.
    + assert (HR' : Prim2SF r = S754_finite s m e) by (rewrite HR; reflexivity).
      rewrite HR', SFeqb_finite_refl. split; [|reflexivity].
      left. apply Prim2SF_inj. now rewrite HR', EW.
    + apply Prim2SF_inj. rewrite HR, Prim2SF_nan. reflexivity.
    + apply Prim2SF_inj. rewrite HR, Prim2SF_nan. reflexivity.
    + assert (HR' : Prim2SF r = S754_finite s m e) by (rewrite HR; reflexivity).
      rewrite HR', SFeqb_finite_refl. split; [|reflexivity].
      left. apply Prim2SF_inj. now rewrite HR', EW.
Qed.

(** C8 (as the code behaves): the initial guess [[0., 1., 0.]] is the
    identity warp wherever the square of the wavelength is a finite double:
    there the entry returned equals the wavelength under [==] (it is the
    same double, except that a negative zero comes back as zero).  Where the
    square overflows, or the wavelength is infinite or [nan], the entry
    returned is [nan]. *)
Theorem C8_identity_where_square_is_finite
        (libm_pow : float -> nat -> float) (old_wave : list float) :
  Forall2 (fun r w =>
             if is_finite (mul w w)
             then (r = w \/ (w = neg_zero /\ r = zero)) /\ eqb r w = true
             else r = nan)
          (F64.alter_wave libm_pow F64.initial_guess old_wave) old_wave.
Proof.
  rewrite alter_wave_initial_guess.
  induction old_wave as [|w old_wave IH]; cbn [map]; constructor; [|exact IH].
  rewrite zero_plus_zero_times_one, mul_one_l. apply initial_guess_entry.
Qed.

(** The claim as stated fails: at the wavelength [1e200], whose square
    overflows, and at an infinite wavelength, the warp by the initial guess
    returns [nan]. *)
Lemma C8_counterexample :
  F64.alter_wave F64.repeated_product F64.initial_guess [1e200%float; infinity]
  = [nan; nan] /\
  eqb nan 1e200%float = false /\
  F64.alter_wave F64.repeated_product F64.initial_guess [1.7%float; 1e150%float]
  = [1.7%float; 1e150%float].
Proof. repeat split. Qed.

(** ** A trailing zero coefficient *)

Lemma enumerate_app {A : Type} (l : list A) (z : A) (k : nat) :
  enumerate k (l ++ [z]) = enumerate k l ++ [((k + length l)%nat, z)].
Proof.
  revert k. induction l as [|a l IH]; intro k; cbn [app enumerate length].
  - now rewrite Nat.add_0_r.
  - rewrite IH. now rewrite Nat.add_succ_r.
Qed.

Lemma f64_alter_wave_step_length (libm_pow : float -> nat -> float)
      (old_wave acc : list float) (item : nat * float) :
  length acc = length old_wave ->
  length (F64.alter_wave_step libm_pow old_wave acc item) = length old_wave.
Proof.
  intro H. destruct item as [c coef]. unfold F64.alter_wave_step.
  rewrite zip_with_length by (rewrite length_map; exact H). exact H.
Qed.

Lemma f64_alter_wave_length (libm_pow : float -> nat -> float)
      (poly_coefs old_wave : list float) :
  length (F64.alter_wave libm_pow poly_coefs old_wave) = length old_wave.
Proof.
  unfold F64.alter_wave.
  assert (H : length (F64.zeros_like old_wave) = length old_wave)
    by apply length_map.
  revert H. generalize (F64.zeros_like old_wave) as acc. generalize 0%nat as k.
  induction poly_coefs as [|c poly_coefs IH]; intros k acc H; cbn [enumerate fold_left].
  - exact H.
  - apply IH. now apply f64_alter_wave_step_length.
Qed.

(** One more coefficient is one more turn of the loop. *)
Lemma f64_alter_wave_app (libm_pow : float -> nat -> float)
      (poly_coefs old_wave : list float) (z : float) :
  F64.alter_wave libm_pow (poly_coefs ++ [z]) old_wave
  = F64.alter_wave_step libm_pow old_wave
      (F64.alter_wave libm_pow poly_coefs old_wave) (length poly_coefs, z).
Proof.
  unfold F64.alter_wave. now rewrite enumerate_app, fold_left_app.
Qed.

(** Zero times a finite double is a zero, and adding a zero changes no
    value. *)
Lemma add_zero_times_finite (a p : float) :
  is_finite p = true -> F64.same_value (add a (mul zero p)) a.
Proof.
  rewrite is_finite_spec. intro Hp. unfold F64.same_value.
  assert (HR : Prim2SF (add a (mul zero p))
               = SF64add (Prim2SF a) (SF64mul (S754_zero false) (Prim2SF p)))
    by now rewrite add_spec, mul_spec, Prim2SF_zero.
  rewrite eqb_spec, HR.
  destruct (Prim2SF p) as [sp|sp| |sp mp ep]; try discriminate Hp;
    cbn [SF64mul SFmul xorb];
    destruct (Prim2SF a) as [sa|sa| |sa ma ea] eqn:EA;
    try (right; destruct sa, sp; reflexivity);
    try (left; apply Prim2SF_inj; rewrite HR, EA; reflexivity).
Qed.

Lemma zip_with_add_same_value (f : float -> float) (acc old_wave : list float) :
  length acc = length old_wave ->
  Forall (fun w => forall a, F64.same_value (add a (f w)) a) old_wave ->
  Forall2 F64.same_value (np.zip_with add acc (map f old_wave)) acc.
Proof.
  intros Hlen H. revert acc Hlen.
  induction H as [|w old_wave Hw H IH]; intros [|a acc] Hlen;
    cbn [map np.zip_with]; try discriminate Hlen; constructor.
  - apply Hw.
  - apply IH. now inversion Hlen.
Qed.

(** X9: a zero coefficient appended to the coefficient vector leaves every
    entry of the warp at the same value, provided the power of the
    wavelength it multiplies is a finite double. *)
Theorem X9_trailing_zero_coefficient
        (libm_pow : float -> nat -> float) (poly_coefs old_wave : list float) :
  Forall (fun w => is_finite (F64.power libm_pow w (length poly_coefs)) = true) old_wave ->
  Forall2 F64.same_value
          (F64.alter_wave libm_pow (poly_coefs ++ [zero]) old_wave)
          (F64.alter_wave libm_pow poly_coefs old_wave).
Proof.
  intro H. rewrite f64_alter_wave_app. unfold F64.alter_wave_step.
  apply zip_with_add_same_value.
  - apply f64_alter_wave_length.
  - apply Forall_impl with (2 := H). intros w Hw a.
    now apply add_zero_times_finite.
Qed.

End DoublePrecision.

Lemma X9_trailing_zero_witness :
  Forall2 F64.same_value
          (F64.alter_wave F64.repeated_product
                          [PrimFloat.zero; PrimFloat.one; PrimFloat.zero]
                          [PrimFloat.one; PrimFloat.two])
          (F64.alter_wave F64.repeated_product
                          [PrimFloat.zero; PrimFloat.one]
                          [PrimFloat.one; PrimFloat.two]).
Proof.
  apply (@X9_trailing_zero_coefficient F64.repeated_product
           [PrimFloat.zero; PrimFloat.one] [PrimFloat.one; PrimFloat.two]).
  repeat constructor.
Defined.
